(** * netchart: a shallow embedding of [netchart.py]

    The monitor samples per-interface byte counters, turns consecutive
    samples into speed samples, keeps a bounded history per interface and
    renders a chart next to a statistics panel.

    Conventions of the embedding.
    - Python [int] is [Z].  The byte counters returned by
      [psutil.net_io_counters] are [int]s.
    - A Python [float] is the rational number ([Q]) it denotes.  Every
      operation that binary64 rounds (a true division, a product, a sum)
      goes through [b64_round], the nearest value with a 53-bit
      significand, ties to even; a result that needs no rounding is kept as
      it is written.  The exponent range is not modelled: with 64-bit
      counters no value comes near 2^1024 or below 2^-1022.  Values are
      compared with [Qeq] (written [==]).
    - A Python [dict] is an insertion-ordered association list with unique
      keys; [for k in d] walks it front to back.
    - A Python [str] is a [string] holding its UTF-8 bytes; [py_len] counts
      code points, as [len] does.
    - An exception is a value of [exn], carried by [result].
    - The clock ([datetime.now()]), the link status ([psutil.net_if_stats])
      and the charting library ([plotext]) are inputs of the functions that
      consult them. *)

From Stdlib Require Import ZArith QArith Qabs Qround Qminmax Qpower.
From Stdlib Require Import List String Ascii Bool Lia Lqa DecimalString.
Import ListNotations.

Open Scope Z_scope.

(** ** Python values *)

Module Py.

(** *** Exceptions *)

Inductive exn : Set :=
| StopIteration
| IndexError.

Inductive result (A : Type) : Type :=
| Ok (a : A)
| Raise (e : exn).

Arguments Ok {A} a.
Arguments Raise {A} e.

Definition bind {A B : Type} (m : result A) (k : A -> result B) : result B :=
  match m with
  | Ok a => k a
  | Raise e => Raise e
  end.

Notation "x <- m ;; k" := (bind m (fun x => k))
  (at level 61, m at next level, right associativity).

(** *** Dictionaries *)

Definition dict (V : Type) : Type := list (string * V).

Definition keys {V : Type} (d : dict V) : list string := map fst d.

Definition values {V : Type} (d : dict V) : list V := map snd d.

(** [k in d] and [d[k]] for a key that is known to be there. *)
Fixpoint lookup {V : Type} (k : string) (d : dict V) : option V :=
  match d with
  | [] => None
  | (k', v) :: d' => if String.eqb k k' then Some v else lookup k d'
  end.

(** [d[k] = v]: a present key keeps its position, a new key goes last. *)
Fixpoint setitem {V : Type} (k : string) (v : V) (d : dict V) : dict V :=
  match d with
  | [] => [(k, v)]
  | (k', v') :: d' =>
      if String.eqb k k' then (k, v) :: d' else (k', v') :: setitem k v d'
  end.

(** [d[k]] on a [defaultdict]: a missing key is first bound to the value
    the factory makes. *)
Definition getitem_default {V : Type} (factory : V) (k : string)
    (d : dict V) : V * dict V :=
  match lookup k d with
  | Some v => (v, d)
  | None => (factory, setitem k factory d)
  end.

(** [next(iter(xs))] *)
Definition next_iter {A : Type} (xs : list A) : result A :=
  match xs with
  | [] => Raise StopIteration
  | x :: _ => Ok x
  end.

(** [xs[-1]] *)
Fixpoint last_item {A : Type} (xs : list A) : result A :=
  match xs with
  | [] => Raise IndexError
  | [x] => Ok x
  | _ :: xs' => last_item xs'
  end.

(** [bool(xs)] for a list *)
Definition truthy {A : Type} (xs : list A) : bool :=
  match xs with
  | [] => false
  | _ :: _ => true
  end.

(** [list(range(n))] *)
Definition range (n : nat) : list nat := seq 0 n.

(** [max(x, *xs)]: the first of the largest arguments. *)
Definition max_of (x : Q) (xs : list Q) : Q := fold_left Qmax xs x.

(** [max(xs + [0])] *)
Definition max_with_zero (xs : list Q) : Q :=
  match xs with
  | [] => 0%Q
  | x :: xs' => max_of x (xs' ++ [0%Q])
  end.

(** *** Strings *)

Open Scope string_scope.

(** A byte [10xxxxxx] continues a code point; every other byte starts one. *)
Definition starts_code_point (c : ascii) : bool :=
  let n := N_of_ascii c in
  negb (N.leb 128 n && N.ltb n 192).

Fixpoint py_len (s : string) : nat :=
  match s with
  | EmptyString => 0
  | String c s' => (if starts_code_point c then 1 else 0) + py_len s'
  end.

(** [s * n] *)
Fixpoint repeat_nat (s : string) (n : nat) : string :=
  match n with
  | O => ""
  | S n' => s ++ repeat_nat s n'
  end.

Definition repeat_str (s : string) (n : Z) : string := repeat_nat s (Z.to_nat n).

(** [s.ljust(width)] *)
Definition ljust (s : string) (width : Z) : string :=
  s ++ repeat_str " " (width - Z.of_nat (py_len s)).

(** [s.center(width)]; CPython puts [marg/2 + (marg & width & 1)] blanks on
    the left. *)
Definition center (s : string) (width : Z) : string :=
  let marg := width - Z.of_nat (py_len s) in
  if (marg <=? 0)%Z then s
  else
    let left := marg / 2 + Z.land (Z.land marg width) 1 in
    repeat_str " " left ++ s ++ repeat_str " " (marg - left).

(** [str(n)] for [n >= 0] *)
Definition str_nat (n : N) : string := NilZero.string_of_uint (N.to_uint n).

(** [f"{n:02d}"] *)
Definition fmt_02d (n : Z) : string :=
  if (n <? 0)%Z then "-" ++ str_nat (Z.to_N (- n))
  else if (n <? 10)%Z then "0" ++ str_nat (Z.to_N n)
  else str_nat (Z.to_N n).

(** The integer nearest to [x], ties to the even one. *)
Definition round_half_even (x : Q) : Z :=
  let f := Qfloor x in
  match Qcompare (x - inject_Z f) (1 # 2) with
  | Lt => f
  | Gt => f + 1
  | Eq => if Z.even f then f else f + 1
  end.

Definition Qneg_bool (x : Q) : bool :=
  match Qcompare x 0 with
  | Lt => true
  | _ => false
  end.

(** [int(x)]: towards zero. *)
Definition int_of (x : Q) : Z :=
  if Qneg_bool x then Qceiling x else Qfloor x.

(** *** Floats *)

(** [floor(log2(x))] for [x > 0]: the difference of the bit lengths of the
    numerator and the denominator, or one less. *)
Definition ilog2 (x : Q) : Z :=
  let E := (Z.log2 (Qnum x) - Z.log2 (Zpos (Qden x)))%Z in
  if Qle_bool (2 ^ E) x then E else (E - 1)%Z.

(** The binary64 value nearest to [x > 0]: [x] is scaled into
    [2^52, 2^53), rounded to an integer, ties to even, and scaled back. *)
Definition nearest_pos (x : Q) : Q :=
  let e := (ilog2 x - 52)%Z in
  (inject_Z (round_half_even (x * 2 ^ (- e))) * 2 ^ e)%Q.

Definition nearest (x : Q) : Q :=
  match Qcompare x 0 with
  | Eq => 0%Q
  | Gt => nearest_pos x
  | Lt => (- nearest_pos (- x))%Q
  end.

(** The result of a binary64 operation whose exact result is [x]. *)
Definition b64_round (x : Q) : Q :=
  if Qeq_bool (nearest x) x then x else nearest x.

(** A binary64 value: an integer below 2^53 in size times a power of two. *)
Definition representable (x : Q) : Prop :=
  exists k s : Z, (Z.abs k < 2 ^ 53)%Z /\ (x == inject_Z k * 2 ^ s)%Q.

(** C's [fmod(x, w)]: exact, with the sign of [x]. *)
Definition fmod (x w : Q) : Q := (x - w * inject_Z (int_of (x / w)))%Q.

(** [x % w] on floats, for [w > 0] (CPython's [float_rem]). *)
Definition float_rem (x w : Q) : Q :=
  let m := fmod x w in
  if Qeq_bool m 0 then 0%Q
  else if Qneg_bool m then b64_round (m + w)
  else m.

(** [x // w] on floats, for [w > 0] (CPython's [float_floor_div]); the
    result is integral. *)
Definition float_floordiv (x w : Q) : Z :=
  let m := fmod x w in
  let div := b64_round (b64_round (x - m) / w) in
  let div :=
    if negb (Qeq_bool m 0) && Qneg_bool m then b64_round (div - 1) else div in
  if Qeq_bool div 0 then 0%Z
  else
    let f := Qfloor div in
    match Qcompare (div - inject_Z f) (1 # 2) with
    | Gt => (f + 1)%Z
    | _ => f
    end.

(** [f"{x:.2f}"]: two decimals, correctly rounded, sign kept. *)
Definition fmt_2f (x : Q) : string :=
  let n := round_half_even (Qabs x * 100) in
  (if Qneg_bool x then "-" else "")
    ++ str_nat (Z.to_N (n / 100)) ++ "."
    ++ str_nat (Z.to_N ((n mod 100) / 10)) ++ str_nat (Z.to_N (n mod 10)).

End Py.

Import Py.

Open Scope list_scope.
Open Scope Z_scope.

(** ** The data model *)

(** A snapshot of the counters: interface name to
    [(bytes_sent, bytes_recv)], as [get_network_stats] returns it. *)
Definition snapshot : Type := dict (Z * Z).

(** The value the [defaultdict] holds per interface.  The three lists are
    the speed histories and the x coordinates of the chart. *)
Record series : Type := {
  bytes_sent : list Q;
  bytes_recv : list Q;
  timestamps : list nat;
  peak_sent : Q;
  peak_recv : Q;
  total_sent : Z;
  total_recv : Z;
  start_time : Z
}.

(** The factory of [interfaces_data]; [now] is what [datetime.now()]
    returns when the entry is made (microseconds). *)
Definition new_series (now : Z) : series := {|
  bytes_sent := [];
  bytes_recv := [];
  timestamps := [];
  peak_sent := 0%Q;
  peak_recv := 0%Q;
  total_sent := 0;
  total_recv := 0;
  start_time := now
|}.

(** The state of the module: [interfaces_data]. *)
Definition interfaces : Type := dict series.

Definition interfaces_data_init : interfaces := [].

(** ** Sampling *)

(** [get_terminal_size]: the terminal less the room for borders and labels. *)
Definition get_terminal_size (terminal : Z * Z) : Z * Z :=
  let '(columns, rows) := terminal in
  (columns - 5, rows - 3).

(** [get_network_stats], from what [psutil.net_io_counters(pernic=True)]
    returns: the loopback interface is left out. *)
Definition get_network_stats (net_io : snapshot) : snapshot :=
  filter (fun kv => negb (String.eqb (fst kv) "lo")) net_io.

(** [(current - previous) / 1024]: the difference of two integers is exact,
    their true division is rounded to binary64. *)
Definition calculate_speed (current previous : Z) : Q :=
  b64_round (inject_Z (current - previous) / 1024).

(** ** Formatting *)

Definition format_speed (speed : Q) : string :=
  if Qle_bool (inject_Z (1024 * 1024)) speed then
    (fmt_2f (b64_round (speed / inject_Z (1024 * 1024))) ++ " GB/s")%string
  else if Qle_bool 1024 speed then
    (fmt_2f (b64_round (speed / 1024)) ++ " MB/s")%string
  else
    (fmt_2f speed ++ " KB/s")%string.

Definition format_bytes (bytes : Q) : string :=
  if Qle_bool (inject_Z (1024 * 1024 * 1024)) bytes then
    (fmt_2f (b64_round (bytes / inject_Z (1024 * 1024 * 1024))) ++ " GB")%string
  else if Qle_bool (inject_Z (1024 * 1024)) bytes then
    (fmt_2f (b64_round (bytes / inject_Z (1024 * 1024))) ++ " MB")%string
  else
    (fmt_2f (b64_round (bytes / 1024)) ++ " KB")%string.

(** ** Updating the histories *)

(** The body of the loop of [update_data] for an interface that both
    snapshots hold, on the entry of that interface: peaks, totals, the three
    appends, and the eviction with its renumbering.  After the appends the
    lists are not empty, so [pop(0)] is [tl]. *)
Definition record_sample (current previous : Z * Z) (history_size : Z)
    (d : series) : series :=
  let sent_speed := calculate_speed (fst current) (fst previous) in
  let recv_speed := calculate_speed (snd current) (snd previous) in
  let sent := bytes_sent d ++ [sent_speed] in
  let recv := bytes_recv d ++ [recv_speed] in
  let stamps := timestamps d ++ [List.length (timestamps d)] in
  let evict := Z.of_nat (List.length stamps) >? history_size in
  {| bytes_sent := if evict then tl sent else sent;
     bytes_recv := if evict then tl recv else recv;
     timestamps := if evict then range (List.length (tl stamps)) else stamps;
     peak_sent := Qmax (peak_sent d) sent_speed;
     peak_recv := Qmax (peak_recv d) recv_speed;
     total_sent := fst current;
     total_recv := snd current;
     start_time := start_time d |}.

(** The entry the loop body works on: the stored one, or a fresh one. *)
Definition entry_before (now : string -> Z) (interface : string)
    (data : interfaces) : series :=
  fst (getitem_default (new_series (now interface)) interface data).

(** One turn of [for interface in stats].  [now interface] is the clock at
    the moment the entry of [interface] is made, when it is. *)
Definition update_interface (now : string -> Z) (previous_stats : snapshot)
    (history_size : Z) (data : interfaces) (item : string * (Z * Z))
    : interfaces :=
  let '(interface, current) := item in
  match lookup interface previous_stats with
  | None => data
  | Some previous =>
      let '(d, data') :=
        getitem_default (new_series (now interface)) interface data in
      setitem interface (record_sample current previous history_size d) data'
  end.

Definition update_data (now : string -> Z) (stats previous_stats : snapshot)
    (history_size : Z) (data : interfaces) : interfaces :=
  fold_left (update_interface now previous_stats history_size) stats data.

(** ** The statistics panel *)

(** [get_interface_status], from what [psutil.net_if_stats()] returns: an
    unknown interface counts as down. *)
Definition get_interface_status (net_if_stats : dict bool)
    (interface : string) : bool :=
  match lookup interface net_if_stats with
  | Some isup => isup
  | None => false
  end.

(** The six accumulators of the first loop of [create_stats_display]. *)
Record totals : Type := {
  sum_total_sent : Z;
  sum_total_recv : Z;
  max_peak_sent : Q;
  max_peak_recv : Q;
  sum_current_sent : Q;
  sum_current_recv : Q
}.

Definition totals_init : totals := {|
  sum_total_sent := 0;
  sum_total_recv := 0;
  max_peak_sent := 0%Q;
  max_peak_recv := 0%Q;
  sum_current_sent := 0%Q;
  sum_current_recv := 0%Q
|}.

Definition add_totals (acc : totals) (data : series) : result totals :=
  if truthy (timestamps data) then
    last_sent <- last_item (bytes_sent data) ;;
    last_recv <- last_item (bytes_recv data) ;;
    Ok {| sum_total_sent := sum_total_sent acc + total_sent data;
          sum_total_recv := sum_total_recv acc + total_recv data;
          max_peak_sent := Qmax (max_peak_sent acc) (peak_sent data);
          max_peak_recv := Qmax (max_peak_recv acc) (peak_recv data);
          sum_current_sent := b64_round (sum_current_sent acc + last_sent);
          sum_current_recv := b64_round (sum_current_recv acc + last_recv) |}
  else Ok acc.

Fixpoint sum_totals (acc : totals) (ds : list series) : result totals :=
  match ds with
  | [] => Ok acc
  | data :: ds' => acc' <- add_totals acc data ;; sum_totals acc' ds'
  end.

(** What [add_line] appends. *)
Definition add_line (panel_width : Z) (text : string) (emoji_count : Z)
    : string :=
  ("│" ++ ljust text (panel_width - emoji_count) ++ "│")%string.

(** The lines of one interface under "Interface Details". *)
Definition interface_lines (net_if_stats : dict bool) (panel_width : Z)
    (item : string * series) : result (list string) :=
  let '(interface, data) := item in
  if truthy (timestamps data) then
    let status :=
      if get_interface_status net_if_stats interface then "🟢" else "🔴" in
    last_sent <- last_item (bytes_sent data) ;;
    last_recv <- last_item (bytes_recv data) ;;
    Ok [ add_line panel_width "" 0;
         add_line panel_width (" " ++ status ++ " " ++ interface ++ ":")%string 1;
         add_line panel_width ("   Current: ↑" ++ format_speed last_sent)%string 0;
         add_line panel_width ("           ↓" ++ format_speed last_recv)%string 0 ]
  else Ok [].

Fixpoint details_lines (net_if_stats : dict bool) (panel_width : Z)
    (items : interfaces) : result (list string) :=
  match items with
  | [] => Ok []
  | item :: items' =>
      ls <- interface_lines net_if_stats panel_width item ;;
      rest <- details_lines net_if_stats panel_width items' ;;
      Ok (ls ++ rest)
  end.

(** [len([d for d in interfaces_data.values() if d['timestamps']])] *)
Definition active_interfaces (data : interfaces) : nat :=
  List.length (filter (fun d => truthy (timestamps d)) (values data)).

(** [duration.total_seconds()]: the microseconds of the duration divided
    by 10^6, a true division of integers. *)
Definition total_seconds (microseconds : Z) : Q :=
  b64_round (inject_Z microseconds / inject_Z 1000000).

(** [hours], [minutes] and [seconds] of lines 162 to 164. *)
Definition duration_parts (microseconds : Z) : Z * Z * Z :=
  let t := total_seconds microseconds in
  (float_floordiv t 3600,
   float_floordiv (float_rem t 3600) 60,
   int_of (float_rem t 60)).

(** [f"   {hours:02d}:{minutes:02d}:{seconds:02d}"] for a duration given in
    microseconds. *)
Definition duration_line (microseconds : Z) : string :=
  let '(hours, minutes, seconds) := duration_parts microseconds in
  ("   " ++ fmt_02d hours ++ ":" ++ fmt_02d minutes ++ ":"
     ++ fmt_02d seconds)%string.

(** [while len(lines) < height - 1: add_line()] *)
Definition fill_lines (panel_width height : Z) (lines : list string)
    : list string :=
  lines ++ repeat (add_line panel_width "" 0)
                  (Z.to_nat (height - 1 - Z.of_nat (List.length lines))).

(** [create_stats_display]; [now] is the clock where the duration is
    taken. *)
Definition create_stats_display (net_if_stats : dict bool) (now : Z)
    (width height : Z) (data : interfaces) : result (list string) :=
  t <- sum_totals totals_init (values data) ;;
  let panel_width := width - 2 in
  let line text := add_line panel_width text 0 in
  let head :=
    [ ("┌" ++ repeat_str "─" panel_width ++ "┐")%string;
      ("│" ++ center "Network Summary" panel_width ++ "│")%string;
      ("│" ++ repeat_str "═" panel_width ++ "│")%string;
      ("│" ++ repeat_str " " panel_width ++ "│")%string;
      line " Total Transferred:";
      line ("   ↑ " ++ format_bytes (inject_Z (sum_total_sent t)))%string;
      line ("   ↓ " ++ format_bytes (inject_Z (sum_total_recv t)))%string;
      line "";
      line " Peak Throughput:";
      line ("   ↑ " ++ format_speed (max_peak_sent t))%string;
      line ("   ↓ " ++ format_speed (max_peak_recv t))%string;
      line "";
      line " Current Throughput:";
      line ("   ↑ " ++ format_speed (sum_current_sent t))%string;
      line ("   ↓ " ++ format_speed (sum_current_recv t))%string;
      line "";
      line " Interface Details:" ] in
  details <- details_lines net_if_stats panel_width data ;;
  let active :=
    [ line "";
      line " Active Interfaces:";
      line ("   " ++ str_nat (N.of_nat (active_interfaces data)))%string;
      line "" ] in
  first <- next_iter (values data) ;;
  let duration := now - start_time first in
  let foot := [ line " Monitor Duration:"; line (duration_line duration) ] in
  let lines := fill_lines panel_width height (head ++ details ++ active ++ foot) in
  Ok (lines ++ [("└" ++ repeat_str "─" panel_width ++ "┘")%string]).

(** ** The chart and the frame *)

(** What the program asks of the charting library before [plt.build()]. *)
Record plot : Type := {
  plot_x : list nat;
  plot_y : list Q;
  plot_label : string;
  plot_color : string
}.

Record figure : Type := {
  plotsize : Z * Z;
  theme : string;
  ylim : option (Q * Q);
  plots : list plot;
  title : string;
  xlabel : string;
  ylabel : string;
  grid : bool;
  xlim : Z * Z
}.

Definition colors : list string :=
  ["red"; "blue"; "green"; "yellow"; "magenta"; "cyan"]%string.

Definition color_at (color_idx : Z) : string :=
  nth (Z.to_nat (color_idx mod Z.of_nat (List.length colors))) colors
      ""%string.

(** One turn of the loop that finds the largest sample. *)
Definition scale_step (max_speed : Q) (interface_data : series) : Q :=
  if truthy (bytes_sent interface_data) || truthy (bytes_recv interface_data)
  then Qmax (Qmax max_speed (max_with_zero (bytes_sent interface_data)))
            (max_with_zero (bytes_recv interface_data))
  else max_speed.

(** [max_speed] when the loop ends; it starts at the minimum scale 1.0. *)
Definition max_speed (data : interfaces) : Q :=
  fold_left scale_step (values data) 1%Q.

(** The float that the literal [1.1] denotes. *)
Definition float_1_1 : Q := b64_round (11 # 10).

(** The argument of [plt.ylim], when it is called. *)
Definition y_limits (auto_scale : bool) (data : interfaces) : option (Q * Q) :=
  if auto_scale
  then Some (0%Q, b64_round (max_speed data * float_1_1))
  else None.

(** The two lines of each interface with a history, and the colour index
    after them. *)
Fixpoint interface_plots (color_idx : Z) (items : interfaces) : list plot :=
  match items with
  | [] => []
  | (interface, data) :: items' =>
      if truthy (timestamps data) then
        {| plot_x := timestamps data;
           plot_y := bytes_sent data;
           plot_label := (interface ++ " (TX)")%string;
           plot_color := color_at color_idx |}
        :: {| plot_x := timestamps data;
              plot_y := bytes_recv data;
              plot_label := (interface ++ " (RX)")%string;
              plot_color := color_at (color_idx + 1) |}
        :: interface_plots (color_idx + 2) items'
      else interface_plots color_idx items'
  end.

Definition chart_figure (chart_width height : Z) (auto_scale : bool)
    (history_size : Z) (dark_mode : bool) (data : interfaces) : figure := {|
  plotsize := (chart_width, height);
  theme := if dark_mode then "dark"%string else "default"%string;
  ylim := y_limits auto_scale data;
  plots := interface_plots 0 data;
  title := "Network Traffic Monitor"%string;
  xlabel := ("Seconds ago (last "
               ++ NilZero.string_of_int (Z.to_int history_size) ++ "s)")%string;
  ylabel := "Speed"%string;
  grid := true;
  xlim := (0, history_size)
|}.

(** Row [i] of the frame: the chart line and the panel line side by side,
    blanks where one of them has no such line. *)
Definition frame_row (chart_width stats_width : Z)
    (chart_lines stats_lines : list string) (i : nat) : string :=
  let chart_line :=
    match nth_error chart_lines i with
    | Some l => l
    | None => repeat_str " " chart_width
    end in
  let stats_line :=
    match nth_error stats_lines i with
    | Some l => l
    | None => repeat_str " " stats_width
    end in
  (chart_line ++ stats_line)%string.

(** [plot_network_traffic]: the figure handed to the library and the rows
    printed after the cursor is sent home.  [terminal] is what
    [shutil.get_terminal_size()] returns and [build] is [plt.build()] split
    into lines, when the library returns; an exception raised inside the
    library is not modelled. *)
Definition plot_network_traffic (terminal : Z * Z)
    (build : figure -> list string) (net_if_stats : dict bool) (now : Z)
    (show_stats auto_scale : bool) (history_size : Z) (dark_mode : bool)
    (data : interfaces) : result (figure * list string) :=
  let '(width, height) := get_terminal_size terminal in
  let chart_width := int_of (b64_round (b64_round (inject_Z width) * (3 # 4))) in
  let stats_width := width - chart_width in
  let fig := chart_figure chart_width height auto_scale history_size
                          dark_mode data in
  let chart_lines := build fig in
  stats_lines <- create_stats_display net_if_stats now stats_width height data ;;
  Ok (fig, map (frame_row chart_width stats_width chart_lines stats_lines)
               (range (Z.to_nat height))).

(** ** Runs *)

(** One call of [update_data], with everything it reads. *)
Record call : Type := {
  call_now : string -> Z;
  call_stats : snapshot;
  call_previous : snapshot;
  call_history : Z
}.

Definition do_call (data : interfaces) (c : call) : interfaces :=
  update_data (call_now c) (call_stats c) (call_previous c) (call_history c)
              data.

(** The calls that the loop of [main] makes while it takes the given
    readings, each with the clock of its turn: every snapshot is compared
    with the one before it, under the one history size of the command
    line. *)
Fixpoint main_calls (history : Z) (previous_stats : snapshot)
    (readings : list ((string -> Z) * snapshot)) : list call :=
  match readings with
  | [] => []
  | (now, current_stats) :: readings' =>
      {| call_now := now;
         call_stats := current_stats;
         call_previous := previous_stats;
         call_history := history |}
      :: main_calls history current_stats readings'
  end.

(** The state after a sequence of calls, from the empty [interfaces_data]. *)
Definition run (calls : list call) : interfaces :=
  fold_left do_call calls interfaces_data_init.

(** The sent and received samples that a call computes for an interface:
    one for each turn of the loop on that interface that finds it in the
    previous snapshot. *)
Definition samples_of_call (pick : Z * Z -> Z) (interface : string)
    (c : call) : list Q :=
  flat_map
    (fun item : string * (Z * Z) =>
       if String.eqb (fst item) interface then
         match lookup interface (call_previous c) with
         | Some previous => [calculate_speed (pick (snd item)) (pick previous)]
         | None => []
         end
       else [])
    (call_stats c).

(** All the samples ever observed for an interface over a run. *)
Definition observed (pick : Z * Z -> Z) (interface : string)
    (calls : list call) : list Q :=
  flat_map (samples_of_call pick interface) calls.

(** [m] is the maximum of [xs]: one of its elements, and none is larger. *)
Definition is_max (m : Q) (xs : list Q) : Prop :=
  In m xs /\ Forall (fun x => (x <= m)%Q) xs.

(** The peak of the entry of [i], 0 while there is none, is the maximum of
    0 and the samples seen. *)
Definition peak_tracks (peak : series -> Q) (i : string) (data : interfaces)
    (seen : list Q) : Prop :=
  is_max (match lookup i data with Some d => peak d | None => 0%Q end)
         (0%Q :: seen).

(** The three lists of an entry have one length. *)
Definition lockstep (d : series) : Prop :=
  List.length (bytes_sent d) = List.length (timestamps d)
  /\ List.length (bytes_recv d) = List.length (timestamps d).

(** The time index has at most [history_size] elements. *)
Definition bounded (history_size : Z) (d : series) : Prop :=
  Z.of_nat (List.length (timestamps d)) <= history_size.

(** The keys of a dictionary are distinct. *)
Definition unique_keys {V : Type} (d : dict V) : Prop := NoDup (keys d).

(** All the samples in the histories of the state. *)
Definition all_samples (data : interfaces) : list Q :=
  flat_map (fun d => bytes_sent d ++ bytes_recv d) (values data).

(** ** Notions used to state the behaviour of the code *)

(** An entry with nothing in its three lists. *)
Definition no_history (d : series) : Prop :=
  bytes_sent d = [] /\ bytes_recv d = [] /\ timestamps d = [].

(** [d'] is a later state of the entry [d]: the peaks are no lower and the
    start time is the same. *)
Definition later_entry (d d' : series) : Prop :=
  (peak_sent d <= peak_sent d')%Q
  /\ (peak_recv d <= peak_recv d')%Q
  /\ start_time d' = start_time d.

(** The length of the history of an interface, 0 while it has no entry. *)
Definition history_length (interface : string) (data : interfaces) : nat :=
  match lookup interface data with
  | Some d => List.length (timestamps d)
  | None => 0%nat
  end.

(** A history of an interface, empty while it has no entry. *)
Definition history_of (field : series -> list Q) (interface : string)
    (data : interfaces) : list Q :=
  match lookup interface data with
  | Some d => field d
  | None => []
  end.

(** The counters of an interface in a snapshot lie between 0 and [bound]. *)
Definition counters_below (bound : Z) (interface : string)
    (snap : snapshot) : Prop :=
  forall c, lookup interface snap = Some c ->
    0 <= fst c <= bound /\ 0 <= snd c <= bound.

(** The sum of a list of samples. *)
Definition sum_samples (xs : list Q) : Q := fold_right Qplus 0%Q xs.

(** ** Sample inputs *)

Definition clock0 : string -> Z := fun _ => 0.

(** A snapshot with the one interface [eth0]. *)
Definition eth0 (sent recv : Z) : snapshot := [("eth0"%string, (sent, recv))].

(** The call the driver makes for two consecutive snapshots. *)
Definition tick (history_size : Z) (previous current : snapshot) : call := {|
  call_now := clock0;
  call_stats := current;
  call_previous := previous;
  call_history := history_size
|}.

(** * Properties *)

(** ** Python values *)

Example fmt_2f_samples :
  map fmt_2f [1%Q; (1 # 8)%Q; (3 # 8)%Q; (-1 # 1000)%Q; (1048575 # 1024)%Q]
  = ["1.00"; "0.12"; "0.38"; "-0.00"; "1024.00"]%string.
Proof. reflexivity. Qed.

Example center_samples :
  (center "Network Summary" 20, center "ab" 5, center "ab" 6, center "abc" 6)
  = ("  Network Summary   ", "  ab ", "  ab  ", " abc  ")%string.
Proof. reflexivity. Qed.

Example py_len_samples :
  (py_len "Network Summary", py_len "   ↑ 1.00 KB", py_len "🟢")
  = (15, 12, 1)%nat.
Proof. reflexivity. Qed.

(** ** Binary64 rounding *)

Section Floats.

Local Open Scope Q_scope.

Lemma round_half_even_bounds (t : Q) :
  inject_Z (round_half_even t) - t <= 1 # 2
  /\ t - inject_Z (round_half_even t) <= 1 # 2.
Proof.
  unfold round_half_even.
  pose proof (Qfloor_le t) as Hl. pose proof (Qlt_floor t) as Hu.
  rewrite inject_Z_plus in Hu. change (inject_Z 1) with 1 in Hu.
  destruct (Qcompare_spec (t - inject_Z (Qfloor t)) (1 # 2)) as [H | H | H].
  - destruct (Z.even (Qfloor t));
      [| rewrite inject_Z_plus; change (inject_Z 1) with 1]; lra.
  - lra.
  - rewrite inject_Z_plus. change (inject_Z 1) with 1. lra.
Qed.

Lemma round_half_even_ge (j : Z) (t : Q) :
  inject_Z j <= t -> (j <= round_half_even t)%Z.
Proof.
  intros H. apply Qfloor_resp_le in H. rewrite Qfloor_Z in H.
  unfold round_half_even.
  destruct (Qcompare (t - inject_Z (Qfloor t)) (1 # 2)); try lia.
  destruct (Z.even (Qfloor t)); lia.
Qed.

Lemma round_half_even_le (j : Z) (t : Q) :
  t <= inject_Z j -> (round_half_even t <= j)%Z.
Proof.
  intros H. unfold round_half_even.
  pose proof (Qfloor_le t) as Hl.
  assert (Hf : (Qfloor t <= j)%Z).
  { apply Qfloor_resp_le in H. now rewrite Qfloor_Z in H. }
  assert (Hstep : 0 < t - inject_Z (Qfloor t) -> (Qfloor t + 1 <= j)%Z).
  { intros Hpos. assert (Hlt : inject_Z (Qfloor t) < inject_Z j) by lra.
    rewrite <- Zlt_Qlt in Hlt. lia. }
  destruct (Qcompare_spec (t - inject_Z (Qfloor t)) (1 # 2)) as [E | E | E].
  - destruct (Z.even (Qfloor t)); [lia |]. apply Hstep. lra.
  - lia.
  - apply Hstep. lra.
Qed.

Lemma round_half_even_int (j : Z) (t : Q) :
  t == inject_Z j -> round_half_even t = j.
Proof.
  intros H. apply Z.le_antisymm.
  - apply round_half_even_le. lra.
  - apply round_half_even_ge. lra.
Qed.

Lemma two_neq_0 : ~ 2 == 0.
Proof. discriminate. Qed.

Lemma pow2_pos (z : Z) : 0 < 2 ^ z.
Proof. now apply Qpower_0_lt. Qed.

Lemma pow2_succ (z : Z) : 2 ^ (z + 1) == 2 * 2 ^ z.
Proof. rewrite Qpower_plus by apply two_neq_0. change (2 ^ 1) with 2. ring. Qed.

Lemma pow2_pred (z : Z) : 2 * 2 ^ (z - 1) == 2 ^ z.
Proof.
  rewrite <- pow2_succ. now replace (z - 1 + 1)%Z with z by lia.
Qed.

Lemma pow2_inv (z : Z) : 2 ^ z * 2 ^ (- z) == 1.
Proof.
  rewrite <- Qpower_plus by apply two_neq_0.
  now replace (z + - z)%Z with 0%Z by lia.
Qed.

Lemma log2_bounds (a : Z) :
  (0 < a)%Z ->
  2 ^ Z.log2 a <= inject_Z a /\ inject_Z a < 2 * 2 ^ Z.log2 a.
Proof.
  intros Ha. destruct (Z.log2_spec a Ha) as [Hl Hu].
  pose proof (Z.log2_nonneg a) as Hn.
  rewrite <- pow2_succ.
  change 2 with (inject_Z 2).
  rewrite <- !Zpower_Qpower by lia.
  rewrite <- Zle_Qle, <- Zlt_Qlt. replace (Z.log2 a + 1)%Z with (Z.succ (Z.log2 a)) by lia.
  split; assumption.
Qed.

Lemma ilog2_spec (x : Q) :
  0 < x -> 2 ^ ilog2 x <= x /\ x < 2 ^ (ilog2 x + 1).
Proof.
  intros Hx. unfold ilog2.
  destruct x as [a d]. cbn [Qnum Qden].
  assert (Ha : (0 < a)%Z).
  { unfold Qlt in Hx. simpl in Hx. lia. }
  destruct (log2_bounds a Ha) as [Hal Hau].
  destruct (log2_bounds (Zpos d) eq_refl) as [Hdl Hdu].
  set (la := Z.log2 a) in *. set (ld := Z.log2 (Zpos d)) in *.
  assert (Hq : a # d == inject_Z a / inject_Z (Zpos d)) by apply Qmake_Qdiv.
  pose proof (pow2_pos la) as HP. pose proof (pow2_pos ld) as HR.
  assert (HD : 0 < inject_Z (Zpos d)) by (unfold Qlt; simpl; lia).
  assert (HE : 2 ^ (la - ld) == 2 ^ la / 2 ^ ld)
    by (apply Qpower_minus, two_neq_0).
  destruct (Qle_bool (2 ^ (la - ld)) (a # d)) eqn:T.
  - apply Qle_bool_iff in T. split; [exact T |].
    rewrite pow2_succ, HE, Hq.
    apply Qlt_shift_div_r; [exact HD |].
    setoid_replace (2 * (2 ^ la / 2 ^ ld) * inject_Z (Z.pos d))
      with (2 * 2 ^ la * (inject_Z (Z.pos d) / 2 ^ ld)) by (field; lra).
    assert (1 <= inject_Z (Z.pos d) / 2 ^ ld) by (apply Qle_shift_div_l; lra).
    nra.
  - assert (T' : a # d < 2 ^ (la - ld)).
    { apply Qnot_le_lt. intros C. apply Qle_bool_iff in C. congruence. }
    replace (la - ld - 1 + 1)%Z with (la - ld)%Z by lia.
    split; [| exact T'].
    assert (Hh : 2 * 2 ^ (la - ld - 1) <= 2 * (a # d)); [| lra].
    rewrite pow2_pred, HE, Hq.
    apply Qle_shift_div_r; [exact HR |].
    setoid_replace (2 * (inject_Z a / inject_Z (Z.pos d)) * 2 ^ ld)
      with (inject_Z a * (2 * 2 ^ ld / inject_Z (Z.pos d))) by (field; lra).
    assert (1 <= 2 * 2 ^ ld / inject_Z (Z.pos d)) by (apply Qle_shift_div_l; lra).
    nra.
Qed.

Lemma pow2_add (a b : Z) : 2 ^ (a + b) == 2 ^ a * 2 ^ b.
Proof. apply Qpower_plus, two_neq_0. Qed.

Lemma pow2_Z (n : Z) : (0 <= n)%Z -> inject_Z (2 ^ n) == 2 ^ n.
Proof. intros H. now rewrite Zpower_Qpower. Qed.

(** The scaled value lies in [2^52, 2^53). *)
Lemma scaled_bounds (x : Q) :
  0 < x ->
  let e := (ilog2 x - 52)%Z in
  x == x * 2 ^ (- e) * 2 ^ e
  /\ inject_Z (2 ^ 52) <= x * 2 ^ (- e)
  /\ 2 ^ ilog2 x == inject_Z (2 ^ 52) * 2 ^ e.
Proof.
  intros Hx e. destruct (ilog2_spec x Hx) as [Hl _].
  pose proof (pow2_inv e) as Hinv.
  pose proof (pow2_pos e) as Hp. pose proof (pow2_pos (- e)) as Hq.
  assert (H52 : 2 ^ ilog2 x == inject_Z (2 ^ 52) * 2 ^ e).
  { rewrite pow2_Z by lia. rewrite <- pow2_add.
    now replace (52 + e)%Z with (ilog2 x) by (unfold e; lia). }
  split; [| split; [| exact H52]].
  - setoid_replace (x * 2 ^ (- e) * 2 ^ e) with (x * (2 ^ e * 2 ^ (- e))) by ring.
    rewrite Hinv. ring.
  - rewrite H52 in Hl.
    setoid_replace (inject_Z (2 ^ 52))
      with (inject_Z (2 ^ 52) * (2 ^ e * 2 ^ (- e))) by (rewrite Hinv; ring).
    setoid_replace (inject_Z (2 ^ 52) * (2 ^ e * 2 ^ (- e)))
      with (inject_Z (2 ^ 52) * 2 ^ e * 2 ^ (- e)) by ring.
    apply Qmult_le_compat_r; [exact Hl | lra].
Qed.

(** A value k * 2^f, seen from an exponent e <= f, is an integer. *)
Lemma scaled_integer (y : Q) (k f e : Z) :
  y == inject_Z k * 2 ^ f -> (e <= f)%Z ->
  y * 2 ^ (- e) == inject_Z (k * 2 ^ (f - e)).
Proof.
  intros Hy Hef. rewrite Hy, inject_Z_mult, pow2_Z by lia.
  replace (f - e)%Z with (f + - e)%Z by lia. rewrite pow2_add. ring.
Qed.

(** A value k * 2^f with k < 2^53 above 2^lg has f >= lg - 52. *)
Lemma exponent_of_large (y : Q) (k f lg : Z) :
  y == inject_Z k * 2 ^ f -> (0 < k < 2 ^ 53)%Z -> 2 ^ lg <= y ->
  (lg - 52 <= f)%Z.
Proof.
  intros Hy [Hk0 Hk] Hl.
  assert (Hlt : 2 ^ lg < 2 ^ (f + 53)).
  { rewrite pow2_add, <- (pow2_Z 53) by lia.
    apply Qle_lt_trans with y; [exact Hl |]. rewrite Hy.
    rewrite (Qmult_comm (2 ^ f)).
    apply Qmult_lt_compat_r; [apply pow2_pos |].
    now rewrite <- Zlt_Qlt. }
  apply Qpower_lt_compat_l_inv in Hlt; [lia | reflexivity].
Qed.

Lemma nearest_pos_exact (x : Q) (k s : Z) :
  (0 < k < 2 ^ 53)%Z -> x == inject_Z k * 2 ^ s -> nearest_pos x == x.
Proof.
  intros Hk Hx.
  assert (Hpos : 0 < x).
  { rewrite Hx. apply Qmult_lt_0_compat; [| apply pow2_pos].
    change 0 with (inject_Z 0). rewrite <- Zlt_Qlt. lia. }
  destruct (ilog2_spec x Hpos) as [Hl _].
  assert (He : (ilog2 x - 52 <= s)%Z) by now apply (exponent_of_large x k s).
  unfold nearest_pos. set (e := (ilog2 x - 52)%Z) in *.
  rewrite (round_half_even_int (k * 2 ^ (s - e)) (x * 2 ^ (- e)))
    by now apply scaled_integer.
  transitivity (inject_Z k * 2 ^ s); [| now symmetry].
  rewrite inject_Z_mult, pow2_Z by lia.
  setoid_replace (inject_Z k * 2 ^ (s - e) * 2 ^ e)
    with (inject_Z k * (2 ^ (s - e) * 2 ^ e)) by ring.
  rewrite <- pow2_add.
  now replace (s - e + e)%Z with s by lia.
Qed.

(** Rounding does not go below a binary64 value that the argument
    reaches. *)
Lemma nearest_pos_ge (x y : Q) (k f : Z) :
  (0 < k < 2 ^ 53)%Z -> y == inject_Z k * 2 ^ f -> y <= x ->
  y <= nearest_pos x.
Proof.
  intros Hk Hy Hyx.
  assert (Hypos : 0 < y).
  { rewrite Hy. apply Qmult_lt_0_compat; [| apply pow2_pos].
    change 0 with (inject_Z 0). rewrite <- Zlt_Qlt. lia. }
  assert (Hpos : 0 < x) by lra.
  destruct (scaled_bounds x Hpos) as (Hsplit & H52 & Hlg).
  unfold nearest_pos. set (e := (ilog2 x - 52)%Z) in *.
  pose proof (pow2_pos e) as Hp.
  set (t := x * 2 ^ (- e)) in *.
  assert (HM : (2 ^ 52 <= round_half_even t)%Z) by now apply round_half_even_ge.
  destruct (Qlt_le_dec (2 ^ ilog2 x) y) as [Hbig | Hsmall].
  - assert (He : (e <= f)%Z).
    { unfold e. apply (exponent_of_large y k f); try assumption. lra. }
    pose proof (scaled_integer y k f e Hy He) as Hint.
    assert (HJ : (k * 2 ^ (f - e) <= round_half_even t)%Z).
    { apply round_half_even_ge. rewrite <- Hint. unfold t.
      apply Qmult_le_compat_r; [exact Hyx | apply Qlt_le_weak, pow2_pos]. }
    assert (Hy' : y == inject_Z (k * 2 ^ (f - e)) * 2 ^ e).
    { rewrite <- Hint.
      setoid_replace (y * 2 ^ (- e) * 2 ^ e) with (y * (2 ^ e * 2 ^ (- e))) by ring.
      rewrite pow2_inv. ring. }
    rewrite Hy'. apply Qmult_le_compat_r; [| lra].
    now rewrite <- Zle_Qle.
  - apply Qle_trans with (2 ^ ilog2 x); [exact Hsmall |].
    rewrite Hlg. apply Qmult_le_compat_r; [| lra].
    now rewrite <- Zle_Qle.
Qed.

(** The relative error of rounding is at most 2^-53. *)
Lemma nearest_pos_lower (x : Q) :
  0 < x -> x - x * (1 # 9007199254740992) <= nearest_pos x.
Proof.
  intros Hpos.
  destruct (scaled_bounds x Hpos) as (Hsplit & H52 & _).
  unfold nearest_pos. set (e := (ilog2 x - 52)%Z) in *.
  pose proof (pow2_pos e) as Hp.
  set (t := x * 2 ^ (- e)) in *.
  destruct (round_half_even_bounds t) as [_ Hlow].
  set (M := inject_Z (round_half_even t)) in *.
  set (p := 2 ^ e) in *.
  change (inject_Z (2 ^ 52)) with 4503599627370496 in H52.
  assert (Hx : x == t * p) by exact Hsplit.
  rewrite Hx.
  assert (H1 : (t - M) * p <= (1 # 2) * p) by (apply Qmult_le_compat_r; lra).
  assert (H2 : 4503599627370496 * p <= t * p) by (apply Qmult_le_compat_r; lra).
  lra.
Qed.

Lemma b64_round_nearest (x : Q) : b64_round x == nearest x.
Proof.
  unfold b64_round. destruct (Qeq_bool (nearest x) x) eqn:E; [| reflexivity].
  apply Qeq_bool_iff in E. now symmetry.
Qed.

Lemma b64_round_exact (x : Q) : nearest x == x -> b64_round x = x.
Proof.
  intros H. unfold b64_round. apply Qeq_bool_iff in H. now rewrite H.
Qed.

Lemma nearest_positive (x : Q) : 0 < x -> nearest x = nearest_pos x.
Proof.
  intros H. unfold nearest.
  assert (Hc : Qcompare x 0 = Gt) by now apply Qgt_alt.
  now rewrite Hc.
Qed.

Lemma nearest_representable (x : Q) : representable x -> nearest x == x.
Proof.
  intros (k & s & Hk & Hx). unfold nearest.
  pose proof (pow2_pos s) as Hp.
  destruct (Z.lt_trichotomy k 0) as [Hneg | [Hz | Hpos]].
  - assert (Hx' : - x == inject_Z (- k) * 2 ^ s).
    { rewrite Hx, inject_Z_opp. ring. }
    assert (Hlt : x < 0).
    { assert (0 < - x); [| lra]. rewrite Hx'.
      apply Qmult_lt_0_compat; [| exact Hp].
      change 0 with (inject_Z 0). rewrite <- Zlt_Qlt. lia. }
    assert (Hc : Qcompare x 0 = Lt) by now apply Qlt_alt.
    rewrite Hc.
    rewrite (nearest_pos_exact (- x) (- k) s); [ring | lia | exact Hx'].
  - subst k. assert (H0 : x == 0) by (rewrite Hx; ring).
    assert (Hc : Qcompare x 0 = Eq) by now apply Qeq_alt.
    rewrite Hc. now symmetry.
  - assert (Hgt : 0 < x).
    { rewrite Hx. apply Qmult_lt_0_compat; [| exact Hp].
      change 0 with (inject_Z 0). rewrite <- Zlt_Qlt. lia. }
    assert (Hc : Qcompare x 0 = Gt) by now apply Qgt_alt.
    rewrite Hc.
    apply (nearest_pos_exact x k s); [lia | exact Hx].
Qed.

Lemma representable_int_shift (z s : Z) :
  (Z.abs z <= 2 ^ 53)%Z -> representable (inject_Z z * 2 ^ s).
Proof.
  intros Hz. destruct (Z.eq_dec (Z.abs z) (2 ^ 53)) as [E | E].
  - exists (Z.sgn z), (s + 53)%Z. split.
    + destruct z; simpl; lia.
    + rewrite pow2_add, <- (pow2_Z 53) by lia.
      setoid_replace (inject_Z (Z.sgn z) * (2 ^ s * inject_Z (2 ^ 53)))
        with (inject_Z (Z.sgn z) * inject_Z (2 ^ 53) * 2 ^ s) by ring.
      rewrite <- inject_Z_mult.
      replace (Z.sgn z * 2 ^ 53)%Z with z; [reflexivity |].
      rewrite <- E. lia.
  - exists z, s. split; [lia | reflexivity].
Qed.

Lemma b64_round_int_div (z : Z) (n : Z) :
  (Z.abs z <= 2 ^ 53)%Z -> (0 <= n)%Z ->
  b64_round (inject_Z z / inject_Z (2 ^ n)) = (inject_Z z / inject_Z (2 ^ n)).
Proof.
  intros Hz Hn. apply b64_round_exact, nearest_representable.
  destruct (representable_int_shift z (- n) Hz) as (k & s & Hk & Hx).
  exists k, s. split; [exact Hk |]. rewrite <- Hx.
  rewrite pow2_Z by exact Hn. rewrite Qpower_opp. reflexivity.
Qed.

End Floats.

Example b64_round_samples :
  (b64_round (1 # 2) = (1 # 2)%Q)
  /\ (float_1_1 == 2476979795053773 # 2251799813685248)%Q
  /\ (b64_round (3 * float_1_1) == 7430939385161319 # 2251799813685248)%Q
  /\ (b64_round (b64_round (1 # 10) + b64_round (2 # 10))
      == 5404319552844596 # 18014398509481984)%Q
  /\ (b64_round (inject_Z (2 ^ 53 + 1) / 1024) == inject_Z (2 ^ 43))%Q.
Proof. repeat split; vm_compute; reflexivity. Qed.

(** The duration line at 10000 years less a microsecond, one microsecond
    before the start, and at 1 h 2 min 5.5 s. *)
Example duration_line_samples :
  map duration_line [315537897599999999; -1; 3725500000]
  = ["   87649416:00:00"; "   -1:59:59"; "   01:02:05"]%string.
Proof. vm_compute. reflexivity. Qed.

(** ** Dictionaries *)

Section Dict.

Context {V : Type}.

Lemma lookup_setitem_same (k : string) (v : V) (d : dict V) :
  lookup k (setitem k v d) = Some v.
Proof.
  induction d as [| [k' v'] d IH]; simpl.
  - now rewrite String.eqb_refl.
  - destruct (String.eqb k k') eqn:E; simpl.
    + now rewrite String.eqb_refl.
    + now rewrite E.
Qed.

Lemma lookup_setitem_other (k i : string) (v : V) (d : dict V) :
  i <> k -> lookup i (setitem k v d) = lookup i d.
Proof.
  intros Hne.
  assert (Hik : String.eqb i k = false) by now apply String.eqb_neq.
  induction d as [| [k' v'] d IH]; simpl.
  - now rewrite Hik.
  - destruct (String.eqb k k') eqn:E; simpl.
    + apply String.eqb_eq in E. subst k'. now rewrite Hik.
    + now rewrite IH.
Qed.

Lemma lookup_none_keys (i : string) (d : dict V) :
  lookup i d = None <-> ~ In i (keys d).
Proof.
  induction d as [| [k v] d IH]; simpl.
  - tauto.
  - destruct (String.eqb i k) eqn:E.
    + apply String.eqb_eq in E. subst k. split; [discriminate | tauto].
    + apply String.eqb_neq in E. rewrite IH. split.
      * intros H [H1 | H1]; [now apply E | now apply H].
      * tauto.
Qed.

Lemma lookup_some_keys (i : string) (d : dict V) :
  In i (keys d) <-> exists v, lookup i d = Some v.
Proof.
  destruct (lookup i d) as [v |] eqn:E.
  - split; [now exists v |].
    intros _. destruct (in_dec string_dec i (keys d)) as [H | H]; [exact H |].
    apply lookup_none_keys in H. congruence.
  - split.
    + intros H. apply lookup_none_keys in E. contradiction.
    + intros [v Hv]. discriminate.
Qed.

Lemma lookup_in (i : string) (v : V) (d : dict V) :
  lookup i d = Some v -> In (i, v) d.
Proof.
  induction d as [| [k w] d IH]; simpl; [discriminate |].
  destruct (String.eqb i k) eqn:E.
  - apply String.eqb_eq in E. intros [= ->]. subst. now left.
  - intros H. right. now apply IH.
Qed.

Lemma in_lookup_unique (i : string) (v : V) (d : dict V) :
  unique_keys d -> In (i, v) d -> lookup i d = Some v.
Proof.
  unfold unique_keys. induction d as [| [k w] d IH]; simpl; [tauto |].
  intros Hnd [H | H].
  - injection H as -> ->. now rewrite String.eqb_refl.
  - inversion Hnd as [| ? ? Hk Hd]; subst.
    destruct (String.eqb i k) eqn:E.
    + apply String.eqb_eq in E. subst k. exfalso. apply Hk.
      change i with (fst (i, v)). now apply in_map.
    + now apply IH.
Qed.

End Dict.

(** ** One turn of the loop *)

Section Update.

Variable now : string -> Z.
Variable previous_stats : snapshot.
Variable history_size : Z.

Lemma entry_before_lookup (i : string) (data : interfaces) :
  entry_before now i data =
  match lookup i data with
  | Some d => d
  | None => new_series (now i)
  end.
Proof.
  unfold entry_before, getitem_default. now destruct (lookup i data).
Qed.

Lemma update_interface_lookup (data : interfaces) (k : string) (cur : Z * Z)
    (i : string) :
  lookup i (update_interface now previous_stats history_size data (k, cur)) =
  match lookup k previous_stats with
  | Some p =>
      if String.eqb i k
      then Some (record_sample cur p history_size (entry_before now k data))
      else lookup i data
  | None => lookup i data
  end.
Proof.
  unfold update_interface, entry_before, getitem_default.
  destruct (lookup k previous_stats) as [p |]; [| reflexivity].
  destruct (String.eqb i k) eqn:E.
  - apply String.eqb_eq in E. subst i.
    destruct (lookup k data); apply lookup_setitem_same.
  - apply String.eqb_neq in E.
    destruct (lookup k data).
    + now apply lookup_setitem_other.
    + rewrite lookup_setitem_other by exact E.
      now apply lookup_setitem_other.
Qed.

(** A turn on another interface leaves the entry of [i] as it is. *)
Lemma update_interface_other (data : interfaces) (k : string) (cur : Z * Z)
    (i : string) :
  i <> k -> lookup i (update_interface now previous_stats history_size data (k, cur)) = lookup i data.
Proof.
  intros Hne. rewrite update_interface_lookup.
  apply String.eqb_neq in Hne. rewrite Hne.
  now destruct (lookup k previous_stats).
Qed.

Lemma update_data_frame (stats : snapshot) (data : interfaces) (i : string) :
  ~ In i (keys stats) ->
  lookup i (update_data now stats previous_stats history_size data)
  = lookup i data.
Proof.
  unfold update_data.
  revert data. induction stats as [| [k cur] stats IH]; intros data Hni.
  - reflexivity.
  - simpl in *. rewrite IH by tauto.
    apply update_interface_other. intros ->. tauto.
Qed.

Lemma update_data_skip (stats : snapshot) (data : interfaces) (i : string) :
  lookup i previous_stats = None ->
  lookup i (update_data now stats previous_stats history_size data)
  = lookup i data.
Proof.
  unfold update_data.
  intros Hp. revert data.
  induction stats as [| [k cur] stats IH]; intros data.
  - reflexivity.
  - cbn [fold_left]. rewrite IH, update_interface_lookup.
    destruct (lookup k previous_stats) eqn:Ek; [| reflexivity].
    destruct (String.eqb i k) eqn:E; [| reflexivity].
    apply String.eqb_eq in E. congruence.
Qed.

Lemma update_data_keeps (stats : snapshot) (data : interfaces) (i : string) :
  lookup i data <> None ->
  lookup i (update_data now stats previous_stats history_size data) <> None.
Proof.
  unfold update_data.
  revert data. induction stats as [| [k cur] stats IH]; intros data H.
  - exact H.
  - cbn [fold_left]. apply IH. rewrite update_interface_lookup.
    destruct (lookup k previous_stats); [| exact H].
    destruct (String.eqb i k); [discriminate | exact H].
Qed.

(** With distinct keys the interface has one turn, which decides its
    entry. *)
Lemma update_data_entry (stats : snapshot) (data : interfaces)
    (i : string) (cur p : Z * Z) :
  unique_keys stats ->
  In (i, cur) stats ->
  lookup i previous_stats = Some p ->
  lookup i (update_data now stats previous_stats history_size data)
  = Some (record_sample cur p history_size (entry_before now i data)).
Proof.
  unfold update_data, unique_keys.
  intros Hnd Hin Hp. revert data Hnd Hin.
  induction stats as [| [k c] stats IH]; intros data Hnd Hin.
  - destruct Hin.
  - cbn [fold_left keys map fst In] in *. inversion Hnd as [| ? ? Hk Hd]; subst.
    destruct Hin as [Hin | Hin].
    + injection Hin as -> ->.
      fold (update_data now stats previous_stats history_size (update_interface now previous_stats history_size data (i, cur))).
      rewrite update_data_frame by exact Hk.
      rewrite update_interface_lookup, Hp.
      now rewrite String.eqb_refl.
    + assert (Hne : i <> k).
      { intros ->. apply Hk. change k with (fst (k, cur)). now apply in_map. }
      rewrite IH by assumption.
      rewrite !entry_before_lookup. now rewrite update_interface_other.
Qed.

(** A property of entries that fresh entries have after their first sample
    and that the loop body keeps is kept by [update_data]. *)
Lemma update_data_entries (P : series -> Prop) (stats : snapshot)
    (data : interfaces) :
  (forall t cur p, P (record_sample cur p history_size (new_series t))) ->
  (forall cur p d, P d -> P (record_sample cur p history_size d)) ->
  (forall i d, lookup i data = Some d -> P d) ->
  forall i d,
    lookup i (update_data now stats previous_stats history_size data) = Some d ->
    P d.
Proof.
  unfold update_data.
  intros Hnew Hkeep. revert data.
  induction stats as [| [k cur] stats IH]; intros data Hdata i d.
  - apply Hdata.
  - cbn [fold_left]. apply IH. clear i d. intros i d.
    rewrite update_interface_lookup.
    destruct (lookup k previous_stats) as [p |]; [| apply Hdata].
    destruct (String.eqb i k); [| apply Hdata].
    intros [= <-]. rewrite entry_before_lookup.
    destruct (lookup k data) as [d0 |] eqn:E.
    + apply Hkeep. now apply Hdata with k.
    + apply Hnew.
Qed.

End Update.

(** ** The loop body on one entry *)

Lemma length_tl_snoc {A : Type} (l : list A) (x : A) :
  List.length (tl (l ++ [x])) = List.length l.
Proof.
  destruct l as [| a l]; simpl; [reflexivity |].
  rewrite length_app. simpl. lia.
Qed.

Lemma length_range (n : nat) : List.length (range n) = n.
Proof. apply length_seq. Qed.

Lemma length_snoc {A : Type} (l : list A) (x : A) :
  List.length (l ++ [x]) = S (List.length l).
Proof. rewrite length_app. simpl. lia. Qed.

Lemma record_sample_lockstep (cur p : Z * Z) (hs : Z) (d : series) :
  lockstep d -> lockstep (record_sample cur p hs d).
Proof.
  unfold lockstep, record_sample. intros [Hs Hr]. simpl.
  destruct (Z.of_nat (List.length (timestamps d ++ [List.length (timestamps d)])) >? hs).
  - rewrite length_range, !length_tl_snoc. now split.
  - rewrite !length_snoc. split; congruence.
Qed.

Lemma record_sample_bounded (cur p : Z * Z) (hs : Z) (d : series) :
  bounded (Z.max 0 hs) d -> bounded (Z.max 0 hs) (record_sample cur p hs d).
Proof.
  unfold bounded, record_sample. intros Hb. simpl.
  destruct (Z.of_nat (List.length (timestamps d ++ [List.length (timestamps d)])) >? hs)
    eqn:E.
  - now rewrite length_range, length_tl_snoc.
  - rewrite Z.gtb_ltb, Z.ltb_ge in E. lia.
Qed.

Lemma record_sample_renumbered (cur p : Z * Z) (hs : Z) (d : series) :
  timestamps d = range (List.length (timestamps d)) ->
  timestamps (record_sample cur p hs d)
  = range (List.length (timestamps (record_sample cur p hs d))).
Proof.
  unfold record_sample. intros Ht. simpl.
  destruct (Z.of_nat (List.length (timestamps d ++ [List.length (timestamps d)])) >? hs).
  - now rewrite length_range.
  - rewrite length_snoc. unfold range in *. rewrite seq_S. simpl.
    now rewrite <- Ht.
Qed.

Lemma new_series_lockstep (t : Z) : lockstep (new_series t).
Proof. now split. Qed.

(** Up to 2^53 in size a counter difference divided by 1024 needs no
    rounding. *)
Lemma calculate_speed_small (current previous : Z) :
  Z.abs (current - previous) <= 2 ^ 53 ->
  calculate_speed current previous = (inject_Z (current - previous) / 1024)%Q.
Proof.
  intros H. unfold calculate_speed.
  apply (b64_round_int_div (current - previous) 10 H). lia.
Qed.

Lemma calculate_speed_exact (current previous : Z) :
  Z.abs (current - previous) <= 2 ^ 53 ->
  (calculate_speed current previous * 1024 == inject_Z (current - previous))%Q.
Proof. intros H. rewrite calculate_speed_small by exact H. field. Qed.

(** Rounding keeps the sign of a negative quotient. *)
Lemma b64_round_negative (x : Q) : (x < 0)%Q -> (b64_round x < 0)%Q.
Proof.
  intros H. rewrite b64_round_nearest. unfold nearest.
  assert (Hc : Qcompare x 0 = Lt) by now apply Qlt_alt.
  rewrite Hc.
  assert (Hpos : (0 < - x)%Q) by lra.
  pose proof (nearest_pos_lower (- x) Hpos). lra.
Qed.

Lemma calculate_speed_negative (current previous : Z) :
  current < previous -> (calculate_speed current previous < 0)%Q.
Proof.
  intros H. unfold calculate_speed. apply b64_round_negative.
  unfold Qlt, Qdiv, Qmult, Qinv, inject_Z. simpl. lia.
Qed.

(** ** Runs of [update_data] *)

Lemma fold_calls_entries (P : series -> Prop) (calls : list call)
    (data : interfaces) :
  (forall c t cur p, In c calls ->
     P (record_sample cur p (call_history c) (new_series t))) ->
  (forall c cur p d, In c calls ->
     P d -> P (record_sample cur p (call_history c) d)) ->
  (forall i d, lookup i data = Some d -> P d) ->
  forall i d, lookup i (fold_left do_call calls data) = Some d -> P d.
Proof.
  revert data. induction calls as [| c calls IH]; intros data Hnew Hkeep Hdata.
  - exact Hdata.
  - cbn [fold_left]. apply IH.
    + intros c' t cur p Hin. apply Hnew. now right.
    + intros c' cur p d Hin. apply Hkeep. now right.
    + unfold do_call. apply update_data_entries.
      * intros t cur p. apply Hnew. now left.
      * intros cur p d. apply Hkeep. now left.
      * exact Hdata.
Qed.

Lemma main_calls_history (history : Z) (previous_stats : snapshot)
    (readings : list ((string -> Z) * snapshot)) (c : call) :
  In c (main_calls history previous_stats readings) ->
  call_history c = history.
Proof.
  revert previous_stats.
  induction readings as [| [now current_stats] readings IH];
    intros previous_stats Hin.
  - destruct Hin.
  - destruct Hin as [<- | Hin]; [reflexivity | now apply IH in Hin].
Qed.

Lemma run_entries (P : series -> Prop) (calls : list call) :
  (forall c t cur p, In c calls ->
     P (record_sample cur p (call_history c) (new_series t))) ->
  (forall c cur p d, In c calls ->
     P d -> P (record_sample cur p (call_history c) d)) ->
  forall i d, lookup i (run calls) = Some d -> P d.
Proof.
  intros Hnew Hkeep. unfold run.
  apply fold_calls_entries; [exact Hnew | exact Hkeep |].
  intros i d. discriminate.
Qed.

(** ** The history window *)

(** C1, as the code has it: over any run whose calls share one history size,
    the three lists of every entry have one length, and that length is at
    most the history size or, for a negative history size, zero. *)
Theorem history_lockstep_bounded (history_size : Z) (calls : list call)
    (i : string) (d : series) :
  (forall c, In c calls -> call_history c = history_size) ->
  lookup i (run calls) = Some d ->
  List.length (bytes_sent d) = List.length (bytes_recv d)
  /\ List.length (bytes_recv d) = List.length (timestamps d)
  /\ Z.of_nat (List.length (timestamps d)) <= Z.max 0 history_size.
Proof.
  intros Hfixed Hd.
  assert (H : lockstep d /\ bounded (Z.max 0 history_size) d).
  { revert i d Hd. apply run_entries.
    - intros c t cur p Hin. rewrite (Hfixed c Hin). split.
      + apply record_sample_lockstep, new_series_lockstep.
      + apply record_sample_bounded. unfold bounded. simpl. lia.
    - intros c cur p d Hin [Hl Hb]. rewrite (Hfixed c Hin). split.
      + now apply record_sample_lockstep.
      + now apply record_sample_bounded. }
  destruct H as [[Hs Hr] Hb]. unfold bounded in Hb.
  repeat split; congruence || exact Hb.
Qed.

Lemma history_lockstep_bounded_witness :
  let calls := [tick 2 (eth0 0 0) (eth0 1024 2048);
                tick 2 (eth0 1024 2048) (eth0 3072 2048);
                tick 2 (eth0 3072 2048) (eth0 4096 4096)] in
  let d := entry_before clock0 "eth0" (run calls) in
  List.length (bytes_sent d) = List.length (bytes_recv d)
  /\ List.length (bytes_recv d) = List.length (timestamps d)
  /\ Z.of_nat (List.length (timestamps d)) <= Z.max 0 2.
Proof.
  intros calls d.
  apply (history_lockstep_bounded 2 calls "eth0" d).
  - intros c Hin. simpl in Hin.
    destruct Hin as [<- | [<- | [<- | []]]]; reflexivity.
  - reflexivity.
Defined.

(** C1 as stated fails for a negative history size: the entry is emptied,
    and an empty list is longer than a negative bound. *)
Lemma history_bound_negative_size :
  exists d,
    lookup "eth0" (run [tick (-1) (eth0 0 0) (eth0 0 0)]) = Some d
    /\ List.length (timestamps d) = 0%nat
    /\ ~ (List.length (bytes_sent d) = List.length (bytes_recv d)
          /\ List.length (bytes_recv d) = List.length (timestamps d)
          /\ Z.of_nat (List.length (timestamps d)) <= -1).
Proof.
  eexists. split; [reflexivity |]. split; [reflexivity |].
  simpl. lia.
Qed.

(** C6: over any run, the time index of every entry is exactly
    [0, 1, ..., len-1], where len is the length of the sent history and of
    the received history, whether or not a sample was evicted. *)
Theorem time_index_renumbered (calls : list call) (i : string) (d : series) :
  lookup i (run calls) = Some d ->
  timestamps d = range (List.length (bytes_sent d))
  /\ timestamps d = range (List.length (bytes_recv d)).
Proof.
  intros Hd.
  assert (H : lockstep d
              /\ timestamps d = range (List.length (timestamps d))).
  { revert i d Hd. apply run_entries.
    - intros c t cur p _. split.
      + apply record_sample_lockstep, new_series_lockstep.
      + now apply record_sample_renumbered.
    - intros c cur p d _ [Hl Ht]. split.
      + now apply record_sample_lockstep.
      + now apply record_sample_renumbered. }
  destruct H as [[Hs Hr] Ht]. rewrite Hs, Hr. now split.
Qed.

Lemma time_index_renumbered_witness :
  let calls := [tick 2 (eth0 0 0) (eth0 1024 2048);
                tick 2 (eth0 1024 2048) (eth0 3072 2048);
                tick 2 (eth0 3072 2048) (eth0 4096 4096)] in
  let d := entry_before clock0 "eth0" (run calls) in
  timestamps d = [0; 1]%nat
  /\ timestamps d = range (List.length (bytes_sent d))
  /\ timestamps d = range (List.length (bytes_recv d)).
Proof.
  intros calls d. split; [reflexivity |].
  apply (time_index_renumbered calls "eth0" d). reflexivity.
Defined.

(** ** Speed samples *)

(** C2, as the code has it: when an interface is in both snapshots,
    [update_data] appends to its histories the samples [s] and [r] of the
    two counters, negative when the counter went down, with
    [s * 1024 = cur - prev] as long as the counter moved by at most 2^53;
    the oldest sample is then dropped when the window is exceeded. *)
Theorem speed_sample_linear (now : string -> Z) (stats previous_stats : snapshot)
    (history_size : Z) (data : interfaces) (i : string) (cur prev : Z * Z) :
  unique_keys stats ->
  In (i, cur) stats ->
  lookup i previous_stats = Some prev ->
  exists (d' : series) (s r : Q),
    lookup i (update_data now stats previous_stats history_size data) = Some d'
    /\ (Z.abs (fst cur - fst prev) <= 2 ^ 53 ->
        (s * 1024 == inject_Z (fst cur - fst prev))%Q)
    /\ (Z.abs (snd cur - snd prev) <= 2 ^ 53 ->
        (r * 1024 == inject_Z (snd cur - snd prev))%Q)
    /\ (fst cur < fst prev -> (s < 0)%Q)
    /\ (snd cur < snd prev -> (r < 0)%Q)
    /\ let d := entry_before now i data in
       let evict := Z.of_nat (S (List.length (timestamps d))) >? history_size in
       bytes_sent d'
       = (if evict then tl (bytes_sent d ++ [s]) else bytes_sent d ++ [s])
       /\ bytes_recv d'
          = (if evict then tl (bytes_recv d ++ [r]) else bytes_recv d ++ [r]).
Proof.
  intros Hnd Hin Hp.
  exists (record_sample cur prev history_size (entry_before now i data)),
         (calculate_speed (fst cur) (fst prev)),
         (calculate_speed (snd cur) (snd prev)).
  split; [now apply update_data_entry |].
  split; [apply calculate_speed_exact |].
  split; [apply calculate_speed_exact |].
  split; [apply calculate_speed_negative |].
  split; [apply calculate_speed_negative |].
  unfold record_sample. cbn [bytes_sent bytes_recv].
  rewrite length_snoc.
  destruct (Z.of_nat (S (List.length (timestamps (entry_before now i data))))
            >? history_size); now split.
Qed.

Lemma speed_sample_linear_witness :
  exists (d' : series) (s r : Q),
    lookup "eth0" (update_data clock0 (eth0 0 4096) (eth0 1024 2048) 60 []) = Some d'
    /\ (Z.abs (0 - 1024) <= 2 ^ 53 -> (s * 1024 == inject_Z (0 - 1024))%Q)
    /\ (Z.abs (4096 - 2048) <= 2 ^ 53 -> (r * 1024 == inject_Z (4096 - 2048))%Q)
    /\ (0 < 1024 -> (s < 0)%Q)
    /\ (4096 < 2048 -> (r < 0)%Q)
    /\ bytes_sent d' = [s]
    /\ bytes_recv d' = [r].
Proof.
  apply (speed_sample_linear clock0 (eth0 0 4096) (eth0 1024 2048) 60 []
                             "eth0" (0, 4096) (1024, 2048)).
  - unfold unique_keys. simpl. constructor; [simpl; tauto | constructor].
  - now left.
  - reflexivity.
Defined.

(** C2 as stated fails for a counter that moves by more than 2^53: when it
    falls from 2^53 + 1 to 0 the quotient is rounded to -2^43, and 1024
    times the sample is not the difference. *)
Lemma speed_sample_rounded :
  exists (d' : series) (s : Q),
    lookup "eth0"
      (update_data clock0 (eth0 0 0) (eth0 (2 ^ 53 + 1) 0) 60 []) = Some d'
    /\ bytes_sent d' = [s]
    /\ (s == - inject_Z (2 ^ 43))%Q
    /\ ~ (s * 1024 == inject_Z (0 - (2 ^ 53 + 1)))%Q.
Proof.
  eexists. eexists. split; [vm_compute; reflexivity |].
  split; [reflexivity |]. split.
  - vm_compute. reflexivity.
  - intros H. vm_compute in H. discriminate H.
Qed.

(** ** Interfaces that come and go *)

(** C7: an interface missing from the previous snapshot gets no sample and
    no entry; an entry that appears during a call belongs to an interface
    of both snapshots. *)
Theorem new_interface_skipped (now : string -> Z) (stats previous_stats : snapshot)
    (history_size : Z) (data : interfaces) (i : string) :
  (lookup i previous_stats = None ->
   lookup i (update_data now stats previous_stats history_size data)
   = lookup i data)
  /\ (lookup i data = None ->
      lookup i (update_data now stats previous_stats history_size data) <> None ->
      In i (keys stats) /\ In i (keys previous_stats)).
Proof.
  split.
  - apply update_data_skip.
  - intros Hnone Hsome. split.
    + destruct (in_dec string_dec i (keys stats)) as [H | H]; [exact H |].
      rewrite update_data_frame in Hsome by exact H. contradiction.
    + destruct (lookup i previous_stats) as [p |] eqn:E.
      * apply lookup_some_keys. now exists p.
      * rewrite update_data_skip in Hsome by exact E. contradiction.
Qed.

Lemma new_interface_skipped_witness :
  let stats := [("eth0"%string, (2048, 4096)); ("wlan0"%string, (10, 20))] in
  lookup "wlan0" (update_data clock0 stats (eth0 1024 2048) 60 []) = None.
Proof.
  intros stats.
  exact (proj1 (new_interface_skipped clock0 stats (eth0 1024 2048) 60 [] "wlan0")
               eq_refl).
Defined.

(** C8: an entry stays in the state through every call, and a call whose
    current snapshot lacks the interface leaves the whole entry as it was. *)
Theorem absent_interface_frozen (now : string -> Z)
    (stats previous_stats : snapshot) (history_size : Z) (data : interfaces)
    (i : string) (d : series) :
  lookup i data = Some d ->
  (exists d',
     lookup i (update_data now stats previous_stats history_size data) = Some d')
  /\ (~ In i (keys stats) ->
      lookup i (update_data now stats previous_stats history_size data) = Some d).
Proof.
  intros Hd. split.
  - destruct (lookup i (update_data now stats previous_stats history_size data))
      as [d' |] eqn:E; [now exists d' |].
    exfalso. revert E. apply update_data_keeps. congruence.
  - intros Hni. now rewrite update_data_frame.
Qed.

Lemma absent_interface_frozen_witness :
  let data := run [tick 60 (eth0 0 0) (eth0 1024 2048)] in
  let d := entry_before clock0 "eth0" data in
  let gone := [("wlan0"%string, (10, 20))] in
  lookup "eth0" (update_data clock0 gone (eth0 1024 2048) 60 data) = Some d.
Proof.
  intros data d gone.
  apply (absent_interface_frozen clock0 gone (eth0 1024 2048) 60 data "eth0" d).
  - reflexivity.
  - simpl. intros [H | []]. discriminate H.
Defined.

(** ** Maxima *)

Lemma Qmax_cases (x y : Q) : Qmax x y = x \/ Qmax x y = y.
Proof.
  unfold Qmax, GenericMinMax.gmax. destruct (x ?= y)%Q; auto.
Qed.

Lemma is_max_le (m : Q) (xs : list Q) (x : Q) :
  is_max m xs -> In x xs -> (x <= m)%Q.
Proof.
  intros [_ Hall] Hin. rewrite Forall_forall in Hall. now apply Hall.
Qed.

(** A new element: the maximum is [Qmax] of the old maximum and it. *)
Lemma is_max_snoc (m s : Q) (xs : list Q) :
  is_max m xs -> is_max (Qmax m s) (xs ++ [s]).
Proof.
  intros [Hin Hall]. split.
  - apply in_or_app. destruct (Qmax_cases m s) as [-> | ->].
    + now left.
    + right. now left.
  - apply Forall_app. split.
    + eapply Forall_impl; [| exact Hall].
      intros x Hx. simpl in Hx. eapply Qle_trans; [exact Hx |].
      apply Q.le_max_l.
    + constructor; [apply Q.le_max_r | constructor].
Qed.

(** More elements, none of them larger: the maximum stays. *)
Lemma is_max_app (m : Q) (xs ys : list Q) :
  is_max m xs -> Forall (fun y => (y <= m)%Q) ys -> is_max m (xs ++ ys).
Proof.
  intros [Hin Hall] Hys. split.
  - apply in_or_app. now left.
  - apply Forall_app. now split.
Qed.

Lemma max_of_is_max (x : Q) (xs : list Q) : is_max (max_of x xs) (x :: xs).
Proof.
  unfold max_of. revert x. induction xs as [| y xs IH]; intros x.
  - simpl. split; [now left |]. constructor; [apply Qle_refl | constructor].
  - cbn [fold_left]. destruct (IH (Qmax x y)) as [Hin Hall]. split.
    + destruct Hin as [Hin | Hin].
      * rewrite <- Hin. destruct (Qmax_cases x y) as [-> | ->].
        -- now left.
        -- right. now left.
      * right. now right.
    + inversion Hall as [| ? ? Hm Hxs]; subst.
      constructor; [| constructor]; try exact Hxs.
      * eapply Qle_trans; [apply Q.le_max_l | exact Hm].
      * eapply Qle_trans; [apply Q.le_max_r | exact Hm].
Qed.

(** [max(xs + [0])] is no smaller than 0 or any element, and is 0 itself
    or an element. *)
Lemma max_with_zero_spec (xs : list Q) :
  (0 <= max_with_zero xs)%Q
  /\ Forall (fun x => (x <= max_with_zero xs)%Q) xs
  /\ (max_with_zero xs = 0%Q \/ In (max_with_zero xs) xs).
Proof.
  destruct xs as [| x xs]; simpl.
  - split; [apply Qle_refl |]. split; [constructor | now left].
  - destruct (max_of_is_max x (xs ++ [0%Q])) as [Hin Hall].
    rewrite app_comm_cons in Hall. apply Forall_app in Hall.
    destruct Hall as [Hxs H0]. split; [| split].
    + now inversion H0.
    + exact Hxs.
    + destruct Hin as [Hin | Hin]; [right; now left |].
      apply in_app_or in Hin. destruct Hin as [Hin | [Hin | []]].
      * right. now right.
      * now left.
Qed.

(** ** Peaks *)

Section Peaks.

(** The counter ([fst] or [snd]) and the peak that follows it. *)
Variable pick : Z * Z -> Z.
Variable peak : series -> Q.
Hypothesis peak_new : forall t, peak (new_series t) = 0%Q.
Hypothesis peak_record : forall cur p hs d,
  peak (record_sample cur p hs d)
  = Qmax (peak d) (calculate_speed (pick cur) (pick p)).

Variable i : string.

Lemma peak_tracks_call (c : call) (data : interfaces) (seen : list Q) :
  peak_tracks peak i data seen ->
  peak_tracks peak i (do_call data c) (seen ++ samples_of_call pick i c).
Proof.
  unfold do_call, update_data, samples_of_call.
  generalize (call_stats c) as stats. intros stats. revert data seen.
  induction stats as [| [k cur] stats IH]; intros data seen H.
  - simpl. now rewrite app_nil_r.
  - cbn [fold_left flat_map fst snd]. rewrite app_assoc. apply IH.
    unfold peak_tracks in *. rewrite update_interface_lookup.
    destruct (String.eqb k i) eqn:E.
    + apply String.eqb_eq in E. subst k.
      destruct (lookup i (call_previous c)) as [p |].
      * rewrite String.eqb_refl, peak_record, entry_before_lookup.
        change (0%Q :: seen ++ [calculate_speed (pick cur) (pick p)])
          with ((0%Q :: seen) ++ [calculate_speed (pick cur) (pick p)]).
        destruct (lookup i data); [| rewrite peak_new]; now apply is_max_snoc.
      * now rewrite app_nil_r.
    + rewrite app_nil_r. rewrite String.eqb_sym in E. rewrite E.
      now destruct (lookup k (call_previous c)).
Qed.

Lemma peak_tracks_calls (calls : list call) (data : interfaces)
    (seen : list Q) :
  peak_tracks peak i data seen ->
  peak_tracks peak i (fold_left do_call calls data) (seen ++ observed pick i calls).
Proof.
  unfold observed. revert data seen.
  induction calls as [| c calls IH]; intros data seen H.
  - simpl. now rewrite app_nil_r.
  - cbn [fold_left flat_map]. rewrite app_assoc. apply IH.
    now apply peak_tracks_call.
Qed.

Lemma peak_tracks_run (calls : list call) (d : series) :
  lookup i (run calls) = Some d ->
  is_max (peak d) (0%Q :: observed pick i calls).
Proof.
  intros Hd.
  assert (H : peak_tracks peak i (run calls) ([] ++ observed pick i calls)).
  { apply peak_tracks_calls. unfold peak_tracks. simpl.
    split; [now left |]. constructor; [apply Qle_refl | constructor]. }
  unfold peak_tracks in H. now rewrite Hd in H.
Qed.

End Peaks.

(** C3, as the code has it: over any run, each peak of an entry is the
    maximum of 0 and all the samples ever observed for the interface,
    evicted ones included. *)
Theorem peak_is_lifetime_max (calls : list call) (i : string) (d : series) :
  lookup i (run calls) = Some d ->
  is_max (peak_sent d) (0%Q :: observed fst i calls)
  /\ is_max (peak_recv d) (0%Q :: observed snd i calls).
Proof.
  intros Hd. split.
  - now apply peak_tracks_run.
  - now apply peak_tracks_run.
Qed.

Lemma peak_is_lifetime_max_witness :
  let calls := [tick 1 (eth0 0 0) (eth0 4096 2048);
                tick 1 (eth0 4096 2048) (eth0 5120 1024)] in
  let d := entry_before clock0 "eth0" (run calls) in
  is_max (peak_sent d) (0%Q :: observed fst "eth0" calls)
  /\ is_max (peak_recv d) (0%Q :: observed snd "eth0" calls).
Proof.
  intros calls d.
  apply (peak_is_lifetime_max calls "eth0" d). reflexivity.
Defined.

(** C3 as stated fails when every sample is negative: the counters went
    from 1024 to 0, the one sample is -1, and the peak is still 0. *)
Lemma peak_above_negative_samples :
  let calls := [tick 60 (eth0 1024 1024) (eth0 0 0)] in
  exists d,
    lookup "eth0" (run calls) = Some d
    /\ is_max (-1024 # 1024)%Q (observed fst "eth0" calls)
    /\ peak_sent d = 0%Q
    /\ ~ (peak_sent d == -1024 # 1024)%Q.
Proof.
  intros calls. eexists. split; [reflexivity |].
  split; [| split; [reflexivity | discriminate]].
  split; [now left |]. constructor; [apply Qle_refl | constructor].
Qed.

(** ** The scale of the chart *)

Lemma scale_step_is_max (ms : Q) (seen : list Q) (d : series) :
  is_max ms (1%Q :: seen) ->
  is_max (scale_step ms d) (1%Q :: seen ++ bytes_sent d ++ bytes_recv d).
Proof.
  intros Hms.
  assert (H1 : (1 <= ms)%Q) by (apply (is_max_le ms (1%Q :: seen)); [exact Hms | now left]).
  unfold scale_step.
  destruct (truthy (bytes_sent d) || truthy (bytes_recv d)) eqn:E.
  - destruct (max_with_zero_spec (bytes_sent d)) as (_ & Hsa & Hsi).
    destruct (max_with_zero_spec (bytes_recv d)) as (_ & Hra & Hri).
    set (a := max_with_zero (bytes_sent d)) in *.
    set (b := max_with_zero (bytes_recv d)) in *.
    assert (Hma : (ms <= Qmax ms a)%Q) by apply Q.le_max_l.
    assert (Hab : (Qmax ms a <= Qmax (Qmax ms a) b)%Q) by apply Q.le_max_l.
    assert (Hno : ~ (1 <= 0)%Q) by (unfold Qle; simpl; lia).
    destruct Hms as [Hin Hall]. split.
    + change (In (Qmax (Qmax ms a) b)
                 ((1%Q :: seen) ++ bytes_sent d ++ bytes_recv d)).
      destruct (Qmax_cases (Qmax ms a) b) as [Hc | Hc].
      * rewrite Hc. destruct (Qmax_cases ms a) as [Hc' | Hc'].
        -- rewrite Hc'. apply in_or_app. now left.
        -- rewrite Hc'. destruct Hsi as [Hz | Hi].
           ++ exfalso. apply Hno. rewrite <- Hz, <- Hc'.
              now apply Qle_trans with ms.
           ++ apply in_or_app. right. apply in_or_app. now left.
      * rewrite Hc. destruct Hri as [Hz | Hi].
        -- exfalso. apply Hno. rewrite <- Hz, <- Hc.
           apply Qle_trans with ms; [exact H1 |].
           now apply Qle_trans with (Qmax ms a).
        -- apply in_or_app. right. apply in_or_app. now right.
    + change (Forall (fun x => (x <= Qmax (Qmax ms a) b)%Q)
                     ((1%Q :: seen) ++ bytes_sent d ++ bytes_recv d)).
      rewrite !Forall_app. repeat split.
      * eapply Forall_impl; [| exact Hall]. intros x Hx. simpl in Hx.
        apply Qle_trans with ms; [exact Hx |].
        now apply Qle_trans with (Qmax ms a).
      * eapply Forall_impl; [| exact Hsa]. intros x Hx. simpl in Hx.
        apply Qle_trans with a; [exact Hx |].
        apply Qle_trans with (Qmax ms a); [apply Q.le_max_r | exact Hab].
      * eapply Forall_impl; [| exact Hra]. intros x Hx. simpl in Hx.
        apply Qle_trans with b; [exact Hx | apply Q.le_max_r].
  - apply orb_false_iff in E. destruct E as [Es Er].
    destruct (bytes_sent d); [| discriminate].
    destruct (bytes_recv d); [| discriminate].
    simpl. now rewrite app_nil_r.
Qed.

Lemma fold_scale_step_is_max (ds : list series) (ms : Q) (seen : list Q) :
  is_max ms (1%Q :: seen) ->
  is_max (fold_left scale_step ds ms)
         (1%Q :: seen ++ flat_map (fun d => bytes_sent d ++ bytes_recv d) ds).
Proof.
  revert ms seen. induction ds as [| d ds IH]; intros ms seen H.
  - simpl. now rewrite app_nil_r.
  - cbn [fold_left flat_map]. rewrite app_assoc. apply IH.
    now apply scale_step_is_max.
Qed.

Lemma max_speed_is_max (data : interfaces) :
  is_max (max_speed data) (1%Q :: all_samples data).
Proof.
  unfold max_speed, all_samples.
  apply (fold_scale_step_is_max (values data) 1%Q []).
  split; [now left |]. constructor; [apply Qle_refl | constructor].
Qed.

(** C4, as the code has it: with auto-scale the upper limit of the y axis is
    the binary64 product of the float 1.1 and the maximum of 1.0 and the
    samples in the histories; the factor applies to the minimum scale as
    well. *)
Theorem y_limit_scaled_max (data : interfaces) :
  exists m : Q,
    y_limits true data = Some (0%Q, b64_round (m * float_1_1))
    /\ is_max m (1%Q :: all_samples data)
    /\ (float_1_1 == 2476979795053773 # 2251799813685248)%Q.
Proof.
  exists (max_speed data). split; [reflexivity |].
  split; [apply max_speed_is_max |]. vm_compute. reflexivity.
Qed.

(** C4 as stated fails when the largest sample is below 1: with the one
    sample 0.5 the limit is the float 1.1, not max(1.0, 1.1 * 0.5) = 1.0,
    whether the product is taken exactly or in binary64. *)
Lemma y_limit_small_samples :
  exists u : Q,
    y_limits true (run [tick 60 (eth0 0 0) (eth0 512 0)]) = Some (0%Q, u)
    /\ is_max (512 # 1024)%Q (all_samples (run [tick 60 (eth0 0 0) (eth0 512 0)]))
    /\ (u == float_1_1)%Q
    /\ ~ (u == Qmax 1 ((11 # 10) * (512 # 1024)))%Q
    /\ ~ (u == Qmax 1 (b64_round (float_1_1 * (512 # 1024))))%Q.
Proof.
  eexists. split; [reflexivity |]. split; [| split; [| split]].
  - split; [now left |].
    repeat constructor; unfold Qle; simpl; lia.
  - vm_compute. reflexivity.
  - intros H. vm_compute in H. discriminate H.
  - intros H. vm_compute in H. discriminate H.
Qed.

(** ** The statistics panel *)






(** Entries made by [update_data] are in lockstep, in every position of the
    dictionary. *)
Lemma setitem_values {V : Type} (P : V -> Prop) (k : string) (v : V)
    (d : dict V) :
  Forall P (values d) -> P v -> Forall P (values (setitem k v d)).
Proof.
  unfold values. intros Hd Hv. induction d as [| [k' v'] d IH]; simpl.
  - now constructor.
  - simpl in Hd. inversion Hd; subst.
    destruct (String.eqb k k'); simpl; constructor; auto.
Qed.

Lemma lookup_values {V : Type} (P : V -> Prop) (k : string) (v : V)
    (d : dict V) :
  Forall P (values d) -> lookup k d = Some v -> P v.
Proof.
  unfold values. intros Hd Hk. apply lookup_in in Hk.
  rewrite Forall_forall in Hd. apply Hd.
  change v with (snd (k, v)). now apply in_map.
Qed.






(** The frame has [height] rows whatever the panel returns. *)
Lemma frame_rows_height (terminal : Z * Z) (build : figure -> list string)
    (net_if_stats : dict bool) (now : Z) (show_stats auto_scale : bool)
    (history_size : Z) (dark_mode : bool) (data : interfaces)
    (fig : figure) (rows : list string) :
  plot_network_traffic terminal build net_if_stats now show_stats auto_scale
                       history_size dark_mode data = Ok (fig, rows) ->
  List.length rows = Z.to_nat (snd terminal - 3).
Proof.
  unfold plot_network_traffic, get_terminal_size.
  destruct terminal as [columns rows0].
  destruct (create_stats_display _ _ _ _ _); cbn [bind]; [| discriminate].
  intros [= _ <-]. now rewrite length_map, length_range.
Qed.

(** ** Formatting *)

(** C9: one byte below 1024 * 1024 is rendered in KB, and 1024 * 1024 bytes
    are rendered as 1.00 MB. *)
Theorem format_bytes_boundary :
  format_bytes (inject_Z (1024 * 1024 - 1)) = "1024.00 KB"%string
  /\ format_bytes (inject_Z (1024 * 1024)) = "1.00 MB"%string.
Proof. split; reflexivity. Qed.

(** ** The empty state *)

(** C10: with no interface recorded, as on a host that has the loopback
    interface only, [create_stats_display] raises [StopIteration] where it
    takes the start time of the first entry, and so does the render; a
    panel that is returned comes from a state with an entry. *)
Theorem empty_state_render_fails (net_if_stats : dict bool) (now : Z)
    (width height : Z) :
  create_stats_display net_if_stats now width height interfaces_data_init
  = Raise StopIteration
  /\ (forall terminal build show_stats auto_scale history_size dark_mode,
        plot_network_traffic terminal build net_if_stats now show_stats
          auto_scale history_size dark_mode interfaces_data_init
        = Raise StopIteration)
  /\ (forall data lines,
        create_stats_display net_if_stats now width height data = Ok lines ->
        data <> [])
  /\ (forall clock history_size counters,
        let stats := get_network_stats [("lo"%string, counters)] in
        update_data clock stats stats history_size interfaces_data_init
        = interfaces_data_init).
Proof.
  split; [reflexivity |]. split; [| split].
  - intros [columns rows] build show_stats auto_scale history_size dark_mode.
    reflexivity.
  - intros data lines H ->. discriminate H.
  - reflexivity.
Qed.

(** ** Scenarios *)

(** Two snapshots of one interface give one sample on each counter. *)
Example two_snapshots :
  run [tick 60 (eth0 1024 2048) (eth0 2048 4096)]
  = [("eth0"%string,
      {| bytes_sent := [(1024 # 1024)%Q];
         bytes_recv := [(2048 # 1024)%Q];
         timestamps := [0%nat];
         peak_sent := (1024 # 1024)%Q;
         peak_recv := (2048 # 1024)%Q;
         total_sent := 2048;
         total_recv := 4096;
         start_time := 0 |})].
Proof. reflexivity. Qed.

(** Five updates through a window of three: the two oldest samples are
    gone, the index is renumbered, the peak remembers the evicted sample. *)
Example window_of_three :
  let d := entry_before clock0 "eth0"
             (run [tick 3 (eth0 0 0) (eth0 5120 0);
                   tick 3 (eth0 5120 0) (eth0 6144 0);
                   tick 3 (eth0 6144 0) (eth0 8192 0);
                   tick 3 (eth0 8192 0) (eth0 11264 0);
                   tick 3 (eth0 11264 0) (eth0 15360 0)]) in
  bytes_sent d = [(2048 # 1024)%Q; (3072 # 1024)%Q; (4096 # 1024)%Q]
  /\ timestamps d = [0; 1; 2]%nat
  /\ peak_sent d = (5120 # 1024)%Q.
Proof. repeat split. Qed.

(** An interface seen for the first time waits for its second snapshot. *)
Example first_sighting :
  let wlan0 := [("wlan0"%string, (10, 20))] in
  keys (run [tick 60 (eth0 0 0) (eth0 1 1 ++ wlan0)]) = ["eth0"%string]
  /\ keys (run [tick 60 (eth0 0 0) (eth0 1 1 ++ wlan0);
                tick 60 (eth0 1 1 ++ wlan0) (eth0 2 2 ++ wlan0)])
     = ["eth0"%string; "wlan0"%string].
Proof. split; reflexivity. Qed.

(** * Further properties of the code *)

(** ** Sampling *)

Lemma lookup_filter_keys {V : Type} (f : string -> bool) (i : string)
    (d : dict V) :
  lookup i (filter (fun kv => f (fst kv)) d)
  = if f i then lookup i d else None.
Proof.
  induction d as [| [k v] d IH]; simpl.
  - now destruct (f i).
  - destruct (String.eqb i k) eqn:E.
    + apply String.eqb_eq in E. subst k.
      destruct (f i) eqn:Ef; simpl.
      * now rewrite String.eqb_refl.
      * exact IH.
    + destruct (f k); simpl; [rewrite E |]; exact IH.
Qed.

(** X1: [get_network_stats] drops the loopback interface and nothing else:
    [lo] is not a key of the result, every other interface has the
    counters the system reported, and the order is kept. *)
Theorem network_stats_without_loopback (net_io : snapshot) :
  lookup "lo" (get_network_stats net_io) = None
  /\ (forall i, i <> "lo"%string ->
        lookup i (get_network_stats net_io) = lookup i net_io)
  /\ keys (get_network_stats net_io)
     = filter (fun k => negb (String.eqb k "lo")) (keys net_io).
Proof.
  unfold get_network_stats. split; [| split].
  - now rewrite (lookup_filter_keys (fun k => negb (String.eqb k "lo"))).
  - intros i Hi.
    rewrite (lookup_filter_keys (fun k => negb (String.eqb k "lo"))).
    apply String.eqb_neq in Hi. now rewrite Hi.
  - unfold keys. induction net_io as [| [k v] net_io IH]; [reflexivity |].
    simpl. destruct (negb (String.eqb k "lo")); simpl; now rewrite IH.
Qed.

Lemma fold_calls_absent (i : string) (calls : list call) (data : interfaces) :
  (forall c, In c calls -> ~ In i (keys (call_stats c))) ->
  lookup i (fold_left do_call calls data) = lookup i data.
Proof.
  revert data. induction calls as [| c calls IH]; intros data H.
  - reflexivity.
  - cbn [fold_left]. rewrite IH by (intros c' Hc'; apply H; now right).
    unfold do_call. apply update_data_frame. apply H. now left.
Qed.

(** X2: when every current snapshot comes from [get_network_stats], the
    loopback interface never gets an entry, whatever the previous
    snapshots hold. *)
Theorem loopback_never_recorded (calls : list call) :
  (forall c, In c calls ->
     exists net_io, call_stats c = get_network_stats net_io) ->
  lookup "lo" (run calls) = None.
Proof.
  intros H. unfold run. rewrite fold_calls_absent; [reflexivity |].
  intros c Hc. destruct (H c Hc) as [net_io ->].
  apply lookup_none_keys. unfold get_network_stats.
  now rewrite (lookup_filter_keys (fun k => negb (String.eqb k "lo"))).
Qed.

Lemma loopback_never_recorded_witness :
  let net_io := [("lo"%string, (500, 500)); ("eth0"%string, (2048, 4096))] in
  lookup "lo"
    (run [{| call_now := clock0;
             call_stats := get_network_stats net_io;
             call_previous := [("lo"%string, (100, 100));
                               ("eth0"%string, (1024, 2048))];
             call_history := 60 |}]) = None.
Proof.
  intros net_io.
  apply (loopback_never_recorded
           [{| call_now := clock0;
               call_stats := get_network_stats net_io;
               call_previous := [("lo"%string, (100, 100));
                                 ("eth0"%string, (1024, 2048))];
               call_history := 60 |}]).
  intros c [<- | []]. now exists net_io.
Defined.

(** ** Entries over a call *)

Lemma later_entry_refl (d : series) : later_entry d d.
Proof. repeat split; apply Qle_refl. Qed.

Lemma later_entry_trans (d1 d2 d3 : series) :
  later_entry d1 d2 -> later_entry d2 d3 -> later_entry d1 d3.
Proof.
  intros (Hs1 & Hr1 & Ht1) (Hs2 & Hr2 & Ht2). repeat split.
  - now apply Qle_trans with (peak_sent d2).
  - now apply Qle_trans with (peak_recv d2).
  - congruence.
Qed.

Lemma record_sample_later (cur p : Z * Z) (hs : Z) (d : series) :
  later_entry d (record_sample cur p hs d).
Proof.
  unfold later_entry, record_sample. simpl.
  repeat split; apply Q.le_max_l.
Qed.

(** X3: through a call of [update_data] an entry keeps its start time and
    its peaks never go down, whatever the snapshots and the history size. *)
Theorem peaks_never_decrease (now : string -> Z)
    (stats previous_stats : snapshot) (history_size : Z) (data : interfaces)
    (i : string) (d : series) :
  lookup i data = Some d ->
  exists d',
    lookup i (update_data now stats previous_stats history_size data) = Some d'
    /\ (peak_sent d <= peak_sent d')%Q
    /\ (peak_recv d <= peak_recv d')%Q
    /\ start_time d' = start_time d.
Proof.
  unfold update_data. revert data d.
  induction stats as [| [k cur] stats IH]; intros data d Hd.
  - exists d. split; [exact Hd | apply later_entry_refl].
  - cbn [fold_left].
    assert (Hstep : exists d1,
               lookup i (update_interface now previous_stats history_size
                                          data (k, cur)) = Some d1
               /\ later_entry d d1).
    { rewrite update_interface_lookup.
      destruct (lookup k previous_stats) as [p |].
      - destruct (String.eqb i k) eqn:E.
        + apply String.eqb_eq in E. subst k. eexists. split; [reflexivity |].
          rewrite entry_before_lookup, Hd. apply record_sample_later.
        + exists d. split; [exact Hd | apply later_entry_refl].
      - exists d. split; [exact Hd | apply later_entry_refl]. }
    destruct Hstep as (d1 & Hd1 & Hl1).
    destruct (IH _ d1 Hd1) as (d' & Hd' & Hl').
    exists d'. split; [exact Hd' |].
    apply (later_entry_trans d d1 d'); [exact Hl1 | exact Hl'].
Qed.

Lemma peaks_never_decrease_witness :
  let data := run [tick 60 (eth0 0 0) (eth0 4096 2048)] in
  let d := entry_before clock0 "eth0" data in
  exists d',
    lookup "eth0" (update_data clock0 (eth0 0 0) (eth0 4096 2048) 60 data)
    = Some d'
    /\ (peak_sent d <= peak_sent d')%Q
    /\ (peak_recv d <= peak_recv d')%Q
    /\ start_time d' = start_time d.
Proof.
  intros data d.
  apply (peaks_never_decrease clock0 (eth0 0 0) (eth0 4096 2048) 60 data
                              "eth0" d).
  reflexivity.
Defined.

(** X4: after a call, the totals of an interface of both snapshots are the
    counters of the current snapshot: they are overwritten, not added up. *)
Theorem totals_are_current_counters (now : string -> Z)
    (stats previous_stats : snapshot) (history_size : Z) (data : interfaces)
    (i : string) (cur prev : Z * Z) :
  unique_keys stats ->
  In (i, cur) stats ->
  lookup i previous_stats = Some prev ->
  exists d',
    lookup i (update_data now stats previous_stats history_size data) = Some d'
    /\ total_sent d' = fst cur
    /\ total_recv d' = snd cur.
Proof.
  intros Hnd Hin Hp. eexists. split.
  - now apply update_data_entry with (cur := cur) (p := prev).
  - split; reflexivity.
Qed.

Lemma totals_are_current_counters_witness :
  let data := run [tick 60 (eth0 0 0) (eth0 4096 2048)] in
  exists d',
    lookup "eth0" (update_data clock0 (eth0 5000 3000) (eth0 4096 2048) 60 data)
    = Some d'
    /\ total_sent d' = 5000
    /\ total_recv d' = 3000.
Proof.
  intros data.
  apply (totals_are_current_counters clock0 (eth0 5000 3000) (eth0 4096 2048)
                                     60 data "eth0" (5000, 3000) (4096, 2048)).
  - unfold unique_keys. simpl. constructor; [simpl; tauto | constructor].
  - now left.
  - reflexivity.
Defined.

(** ** The order of the entries *)

Lemma keys_setitem_present {V : Type} (k : string) (v : V) (d : dict V) :
  lookup k d <> None -> keys (setitem k v d) = keys d.
Proof.
  unfold keys. induction d as [| [k' v'] d IH]; simpl; intros H.
  - contradiction.
  - destruct (String.eqb k k') eqn:E; simpl.
    + apply String.eqb_eq in E. now subst k'.
    + now rewrite IH.
Qed.

Lemma keys_setitem_absent {V : Type} (k : string) (v : V) (d : dict V) :
  lookup k d = None -> keys (setitem k v d) = keys d ++ [k].
Proof.
  unfold keys. induction d as [| [k' v'] d IH]; simpl; intros H.
  - reflexivity.
  - destruct (String.eqb k k') eqn:E; [discriminate |]. simpl.
    now rewrite IH.
Qed.

Lemma setitem_twice {V : Type} (k : string) (v w : V) (d : dict V) :
  setitem k v (setitem k w d) = setitem k v d.
Proof.
  induction d as [| [k' v'] d IH]; simpl.
  - now rewrite String.eqb_refl.
  - destruct (String.eqb k k') eqn:E; simpl.
    + now rewrite String.eqb_refl.
    + now rewrite E, IH.
Qed.

(** What one turn of the loop stores, whether the entry was there or not. *)
Lemma update_interface_setitem (now : string -> Z) (previous_stats : snapshot)
    (history_size : Z) (data : interfaces) (k : string) (cur p : Z * Z) :
  lookup k previous_stats = Some p ->
  update_interface now previous_stats history_size data (k, cur)
  = setitem k (record_sample cur p history_size (entry_before now k data)) data.
Proof.
  intros Hp. unfold update_interface, entry_before, getitem_default.
  rewrite Hp. destruct (lookup k data); [reflexivity |].
  cbn [fst]. apply setitem_twice.
Qed.

Lemma update_interface_keys (now : string -> Z) (previous_stats : snapshot)
    (history_size : Z) (data : interfaces) (k : string) (cur : Z * Z) :
  keys (update_interface now previous_stats history_size data (k, cur))
  = keys data
    ++ match lookup k previous_stats, lookup k data with
       | Some _, None => [k]
       | _, _ => []
       end.
Proof.
  destruct (lookup k previous_stats) as [p |] eqn:Hp.
  - rewrite (update_interface_setitem now previous_stats history_size data
                                      k cur p Hp).
    destruct (lookup k data) as [d |] eqn:Hd.
    + rewrite keys_setitem_present by congruence. now rewrite app_nil_r.
    + now apply keys_setitem_absent.
  - unfold update_interface. rewrite Hp. now rewrite app_nil_r.
Qed.

(** X5: [update_data] keeps the entries in their order and puts the new
    ones after them; a new entry belongs to an interface of both snapshots
    that had none. *)
Theorem entries_keep_their_place (now : string -> Z)
    (stats previous_stats : snapshot) (history_size : Z) (data : interfaces) :
  exists new,
    keys (update_data now stats previous_stats history_size data)
    = keys data ++ new
    /\ Forall (fun k => In k (keys stats) /\ In k (keys previous_stats)
                        /\ ~ In k (keys data)) new.
Proof.
  unfold update_data. revert data.
  induction stats as [| [k cur] stats IH]; intros data.
  - exists []. split; [now rewrite app_nil_r | constructor].
  - cbn [fold_left].
    destruct (IH (update_interface now previous_stats history_size data (k, cur)))
      as (new & Hkeys & Hnew).
    rewrite update_interface_keys in Hkeys, Hnew.
    set (first := match lookup k previous_stats, lookup k data with
                  | Some _, None => [k]
                  | _, _ => []
                  end) in *.
    exists (first ++ new). split; [now rewrite app_assoc |].
    apply Forall_app. split.
    + subst first.
      destruct (lookup k previous_stats) as [p |] eqn:Hp; [| constructor].
      destruct (lookup k data) eqn:Hd; constructor; [| constructor].
      split; [now left |]. split.
      * apply lookup_some_keys. now exists p.
      * now apply lookup_none_keys.
    + eapply Forall_impl; [| exact Hnew].
      intros k' (Hs & Hp & Hd). split; [now right |]. split; [exact Hp |].
      intros Hin. apply Hd. apply in_or_app. now left.
Qed.

Lemma update_interface_head (now : string -> Z) (previous_stats : snapshot)
    (history_size : Z) (k0 : string) (d0 : series) (rest : interfaces)
    (item : string * (Z * Z)) :
  exists d0' rest',
    update_interface now previous_stats history_size ((k0, d0) :: rest) item
    = (k0, d0') :: rest'
    /\ later_entry d0 d0'.
Proof.
  destruct item as [k cur].
  destruct (lookup k previous_stats) as [p |] eqn:Hp.
  - rewrite (update_interface_setitem now previous_stats history_size _ k cur p Hp).
    rewrite entry_before_lookup. cbn [setitem lookup].
    destruct (String.eqb k k0) eqn:E.
    + apply String.eqb_eq in E. subst k0.
      eexists. eexists. split; [reflexivity | apply record_sample_later].
    + eexists. eexists. split; [reflexivity | apply later_entry_refl].
  - unfold update_interface. rewrite Hp.
    exists d0, rest. split; [reflexivity | apply later_entry_refl].
Qed.

(** X6: the first entry of the state stays the first through every call
    and keeps its start time, so the duration on the panel is always
    counted from the same instant. *)
Theorem first_entry_start_time_kept (now : string -> Z)
    (stats previous_stats : snapshot) (history_size : Z) (data : interfaces)
    (d : series) :
  next_iter (values data) = Ok d ->
  exists d',
    next_iter (values (update_data now stats previous_stats history_size data))
    = Ok d'
    /\ start_time d' = start_time d.
Proof.
  intros Hd. destruct data as [| [k0 d0] rest]; [discriminate |].
  injection Hd as ->.
  assert (H : exists d' rest',
             update_data now stats previous_stats history_size ((k0, d) :: rest)
             = (k0, d') :: rest' /\ later_entry d d').
  { unfold update_data. revert d rest.
    induction stats as [| item stats IH]; intros d rest.
    - exists d, rest. split; [reflexivity | apply later_entry_refl].
    - cbn [fold_left].
      destruct (update_interface_head now previous_stats history_size
                                      k0 d rest item) as (d1 & rest1 & -> & Hl1).
      destruct (IH d1 rest1) as (d' & rest' & -> & Hl').
      exists d', rest'. split; [reflexivity |].
      now apply (later_entry_trans d d1 d'). }
  destruct H as (d' & rest' & -> & _ & _ & Ht).
  exists d'. split; [reflexivity | exact Ht].
Qed.

Lemma first_entry_start_time_kept_witness :
  let wlan0 := [("wlan0"%string, (10, 20))] in
  let data := run [tick 60 (eth0 0 0) (eth0 1 1)] in
  exists d',
    next_iter (values (update_data (fun _ => 77) (wlan0 ++ eth0 3 3)
                                   (wlan0 ++ eth0 2 2) 60 data)) = Ok d'
    /\ start_time d' = start_time (entry_before clock0 "eth0" data).
Proof.
  intros wlan0 data.
  apply (first_entry_start_time_kept (fun _ => 77) (wlan0 ++ eth0 3 3)
           (wlan0 ++ eth0 2 2) 60 data (entry_before clock0 "eth0" data)).
  reflexivity.
Defined.

(** ** Degenerate and full windows *)

(** A property that the loop body gives to every entry it writes holds for
    all the values of the state. *)
Lemma update_data_values (P : series -> Prop) (now : string -> Z)
    (stats previous_stats : snapshot) (history_size : Z) (data : interfaces) :
  (forall t cur p, P (record_sample cur p history_size (new_series t))) ->
  (forall cur p d, P d -> P (record_sample cur p history_size d)) ->
  Forall P (values data) ->
  Forall P (values (update_data now stats previous_stats history_size data)).
Proof.
  intros Hnew Hkeep. unfold update_data. revert data.
  induction stats as [| [k cur] stats IH]; intros data H; [exact H |].
  cbn [fold_left]. apply IH.
  destruct (lookup k previous_stats) as [p |] eqn:Hp.
  - rewrite (update_interface_setitem now previous_stats history_size data
                                      k cur p Hp).
    apply setitem_values; [exact H |].
    rewrite entry_before_lookup.
    destruct (lookup k data) as [d |] eqn:Hd.
    + apply Hkeep. now apply (lookup_values P k d data).
    + apply Hnew.
  - unfold update_interface. now rewrite Hp.
Qed.

Lemma run_values (P : series -> Prop) (calls : list call) :
  (forall c t cur p, In c calls ->
     P (record_sample cur p (call_history c) (new_series t))) ->
  (forall c cur p d, In c calls ->
     P d -> P (record_sample cur p (call_history c) d)) ->
  Forall P (values (run calls)).
Proof.
  unfold run.
  assert (H : Forall P (values interfaces_data_init)) by constructor.
  revert H. generalize interfaces_data_init as data.
  induction calls as [| c calls IH]; intros data H Hnew Hkeep; [exact H |].
  cbn [fold_left]. apply IH.
  - unfold do_call. apply update_data_values.
    + intros t cur p. apply Hnew. now left.
    + intros cur p d. apply Hkeep. now left.
    + exact H.
  - intros c' t cur p Hin. apply Hnew. now right.
  - intros c' cur p d Hin. apply Hkeep. now right.
Qed.

Lemma record_sample_no_history (cur p : Z * Z) (hs : Z) (d : series) :
  hs <= 0 -> no_history d -> no_history (record_sample cur p hs d).
Proof.
  intros Hhs (Hs & Hr & Ht). unfold no_history, record_sample.
  rewrite Hs, Hr, Ht. cbn [bytes_sent bytes_recv timestamps app List.length].
  assert (E : (Z.of_nat 1 >? hs) = true) by (apply Z.gtb_lt; lia).
  rewrite E. now repeat split.
Qed.

Lemma no_history_inactive (data : interfaces) :
  Forall no_history (values data) ->
  active_interfaces data = 0%nat /\ interface_plots 0 data = [].
Proof.
  unfold active_interfaces. generalize 0 as color_idx.
  induction data as [| [i d] data IH]; intros color_idx H.
  - now split.
  - cbn [values map snd] in H. inversion H as [| ? ? (_ & _ & Ht) Hrest]; subst.
    cbn [values map snd filter interface_plots]. rewrite Ht. cbn [truthy].
    now apply IH.
Qed.

(** X7: with a history size of zero or less every sample is evicted in the
    call that appends it: over any such run all the histories are empty, so
    no interface counts as active and nothing is plotted, though the
    entries exist. *)
Theorem no_window_no_history (calls : list call) :
  (forall c, In c calls -> call_history c <= 0) ->
  Forall no_history (values (run calls))
  /\ active_interfaces (run calls) = 0%nat
  /\ interface_plots 0 (run calls) = [].
Proof.
  intros Hhs.
  assert (H : Forall no_history (values (run calls))).
  { apply run_values.
    - intros c t cur p Hin. apply record_sample_no_history.
      + now apply Hhs.
      + now repeat split.
    - intros c cur p d Hin. apply record_sample_no_history. now apply Hhs. }
  split; [exact H | now apply no_history_inactive].
Qed.

Lemma no_window_no_history_witness :
  let calls := [tick 0 (eth0 0 0) (eth0 1024 2048);
                tick 0 (eth0 1024 2048) (eth0 4096 4096)] in
  keys (run calls) = ["eth0"%string]
  /\ Forall no_history (values (run calls))
  /\ active_interfaces (run calls) = 0%nat
  /\ interface_plots 0 (run calls) = [].
Proof.
  intros calls. split; [reflexivity |].
  apply (no_window_no_history calls).
  intros c Hin. simpl in Hin.
  destruct Hin as [<- | [<- | []]]; simpl; lia.
Defined.

Lemma last_item_snoc {A : Type} (xs : list A) (x : A) :
  last_item (xs ++ [x]) = Ok x.
Proof.
  induction xs as [| a xs IH]; [reflexivity |].
  simpl. destruct (xs ++ [x]) eqn:E; [| exact IH].
  destruct xs; discriminate.
Qed.

Lemma last_item_tl_snoc {A : Type} (xs : list A) (x : A) :
  xs <> [] -> last_item (tl (xs ++ [x])) = Ok x.
Proof.
  destruct xs as [| a xs]; [contradiction |]. intros _. apply last_item_snoc.
Qed.

(** X8: with a history size of at least one, after a call the last element
    of each history of an interface of both snapshots is the sample of that
    call, which is what the panel shows as the current throughput. *)
Theorem latest_sample_is_last (now : string -> Z)
    (stats previous_stats : snapshot) (history_size : Z) (data : interfaces)
    (i : string) (cur prev : Z * Z) :
  unique_keys stats ->
  In (i, cur) stats ->
  lookup i previous_stats = Some prev ->
  lockstep (entry_before now i data) ->
  1 <= history_size ->
  exists d',
    lookup i (update_data now stats previous_stats history_size data) = Some d'
    /\ last_item (bytes_sent d') = Ok (calculate_speed (fst cur) (fst prev))
    /\ last_item (bytes_recv d') = Ok (calculate_speed (snd cur) (snd prev)).
Proof.
  intros Hnd Hin Hp [Hs Hr] Hhs. eexists. split.
  - now apply update_data_entry with (cur := cur) (p := prev).
  - unfold record_sample. cbn [bytes_sent bytes_recv].
    rewrite length_snoc.
    destruct (Z.of_nat (S (List.length (timestamps (entry_before now i data))))
              >? history_size) eqn:E.
    + apply Z.gtb_lt in E.
      assert (Hne : timestamps (entry_before now i data) <> []).
      { intros E0. rewrite E0 in E. simpl in E. lia. }
      split; apply last_item_tl_snoc; intros E0; apply Hne;
        apply length_zero_iff_nil; [rewrite <- Hs | rewrite <- Hr];
        now rewrite E0.
    + split; apply last_item_snoc.
Qed.

Lemma latest_sample_is_last_witness :
  let data := run [tick 1 (eth0 0 0) (eth0 4096 2048)] in
  exists d',
    lookup "eth0" (update_data clock0 (eth0 5120 1024) (eth0 4096 2048) 1 data)
    = Some d'
    /\ last_item (bytes_sent d') = Ok (calculate_speed 5120 4096)
    /\ last_item (bytes_recv d') = Ok (calculate_speed 1024 2048).
Proof.
  intros data.
  apply (latest_sample_is_last clock0 (eth0 5120 1024) (eth0 4096 2048) 1 data
                               "eth0" (5120, 1024) (4096, 2048)).
  - unfold unique_keys. simpl. constructor; [simpl; tauto | constructor].
  - now left.
  - reflexivity.
  - split; reflexivity.
  - lia.
Defined.

(** ** The loop of the driver *)

Lemma record_sample_length (cur p : Z * Z) (hs : Z) (d : series) :
  Z.of_nat (List.length (timestamps d)) <= hs ->
  Z.of_nat (List.length (timestamps (record_sample cur p hs d)))
  = Z.min (Z.of_nat (List.length (timestamps d)) + 1) hs.
Proof.
  intros Hb. unfold record_sample. cbn [timestamps]. rewrite length_snoc.
  destruct (Z.of_nat (S (List.length (timestamps d))) >? hs) eqn:E.
  - apply Z.gtb_lt in E. rewrite length_range, length_tl_snoc. lia.
  - rewrite Z.gtb_ltb, Z.ltb_ge in E. rewrite length_snoc. lia.
Qed.

Lemma history_length_entry_before (now : string -> Z) (i : string)
    (data : interfaces) :
  List.length (timestamps (entry_before now i data)) = history_length i data.
Proof.
  rewrite entry_before_lookup. unfold history_length.
  now destruct (lookup i data).
Qed.

Lemma main_calls_history_length (history : Z) (i : string)
    (readings : list ((string -> Z) * snapshot)) :
  forall (previous_stats : snapshot) (data : interfaces),
    In i (keys previous_stats) ->
    (forall r, In r readings -> unique_keys (snd r) /\ In i (keys (snd r))) ->
    Z.of_nat (history_length i data) <= history ->
    Z.of_nat (history_length i
                (fold_left do_call (main_calls history previous_stats readings)
                           data))
    = Z.min (Z.of_nat (history_length i data) + Z.of_nat (List.length readings))
            history.
Proof.
  induction readings as [| [now current_stats] readings IH];
    intros previous_stats data Hprev Hall Hb.
  - simpl. lia.
  - cbn [main_calls fold_left].
    destruct (Hall (now, current_stats) (or_introl eq_refl)) as [Hnd Hin].
    cbn [snd] in Hnd, Hin.
    apply lookup_some_keys in Hprev. destruct Hprev as [p Hp].
    pose proof Hin as Hcur. apply lookup_some_keys in Hcur.
    destruct Hcur as [cur Hcur].
    assert (Hstep : Z.of_nat (history_length i
                      (do_call data {| call_now := now;
                                       call_stats := current_stats;
                                       call_previous := previous_stats;
                                       call_history := history |}))
                    = Z.min (Z.of_nat (history_length i data) + 1) history).
    { unfold do_call. cbn [call_now call_stats call_previous call_history].
      unfold history_length at 1.
      rewrite (update_data_entry now previous_stats history current_stats data
                                 i cur p Hnd (lookup_in i cur _ Hcur) Hp).
      rewrite <- (history_length_entry_before now i data).
      apply record_sample_length.
      now rewrite history_length_entry_before. }
    rewrite IH.
    + rewrite Hstep. cbn [List.length]. lia.
    + exact Hin.
    + intros r Hr. apply Hall. now right.
    + rewrite Hstep. lia.
Qed.

(** X9: in the loop of the driver, with a history size that is not
    negative, an interface held by the snapshot read before the loop and by
    every snapshot read in the loop has one sample for each turn of the
    loop, up to the history size; the snapshot read before the loop gives
    no sample. *)
Theorem history_fills_then_slides (history : Z) (i : string)
    (previous_stats : snapshot) (readings : list ((string -> Z) * snapshot)) :
  0 <= history ->
  In i (keys previous_stats) ->
  (forall r, In r readings -> unique_keys (snd r) /\ In i (keys (snd r))) ->
  Z.of_nat (history_length i (run (main_calls history previous_stats readings)))
  = Z.min (Z.of_nat (List.length readings)) history.
Proof.
  intros Hh Hprev Hall. unfold run.
  rewrite main_calls_history_length; try assumption.
  reflexivity.
Qed.

Lemma history_fills_then_slides_witness :
  Z.of_nat (history_length "eth0"
              (run (main_calls 5 (eth0 0 0)
                      [(clock0, eth0 1 1); (clock0, eth0 2 2)])))
  = Z.min (Z.of_nat 2) 5.
Proof.
  apply (history_fills_then_slides 5 "eth0" (eth0 0 0)
           [(clock0, eth0 1 1); (clock0, eth0 2 2)]).
  - lia.
  - now left.
  - intros r Hr. simpl in Hr.
    destruct Hr as [<- | [<- | []]];
      (split; [unfold unique_keys; simpl;
               constructor; [simpl; tauto | constructor]
              | now left]).
Defined.

Lemma samples_of_call_present (pick : Z * Z -> Z) (i : string) (c : call)
    (cur p : Z * Z) :
  unique_keys (call_stats c) ->
  In (i, cur) (call_stats c) ->
  lookup i (call_previous c) = Some p ->
  samples_of_call pick i c = [calculate_speed (pick cur) (pick p)].
Proof.
  unfold samples_of_call, unique_keys. intros Hnd Hin Hp. rewrite Hp.
  assert (Hno : forall l : snapshot,
             ~ In i (keys l) ->
             flat_map
               (fun item : string * (Z * Z) =>
                  if String.eqb (fst item) i
                  then [calculate_speed (pick (snd item)) (pick p)]
                  else []) l = []).
  { induction l as [| [k' v'] l IHl]; [reflexivity |].
    intros Hni. cbn [flat_map fst snd keys map In] in *.
    destruct (String.eqb k' i) eqn:E.
    - apply String.eqb_eq in E. tauto.
    - apply IHl. tauto. }
  induction (call_stats c) as [| [k v] stats IH]; [destruct Hin |].
  cbn [keys map fst] in Hnd. inversion Hnd as [| ? ? Hk Hd]; subst.
  cbn [flat_map fst snd].
  destruct Hin as [Hin | Hin].
  - injection Hin as -> ->. rewrite String.eqb_refl.
    cbn [app]. f_equal. now apply Hno.
  - assert (Hne : String.eqb k i = false).
    { apply String.eqb_neq. intros ->. apply Hk.
      change i with (fst (i, cur)). now apply in_map. }
    rewrite Hne. cbn [app]. now apply IH.
Qed.

Lemma last_nonempty_default {A : Type} (l : list A) (a d d' : A) :
  last (a :: l) d = last (a :: l) d'.
Proof.
  revert a. induction l as [| b l IH]; intros a; [reflexivity |].
  change (last (b :: l) d = last (b :: l) d'). apply IH.
Qed.

Lemma last_cons_default {A : Type} (a d : A) (l : list A) :
  last (a :: l) d = last l a.
Proof.
  destruct l as [| b l]; [reflexivity |].
  change (last (b :: l) d = last (b :: l) a). apply last_nonempty_default.
Qed.

Section Histories.

(** A counter ([fst] or [snd]) and the history that follows it. *)
Variable pick : Z * Z -> Z.
Variable field : series -> list Q.
Hypothesis field_new : forall t, field (new_series t) = [].
Hypothesis field_record : forall cur p hs d,
  field (record_sample cur p hs d)
  = (if Z.of_nat (S (List.length (timestamps d))) >? hs
     then tl (field d ++ [calculate_speed (pick cur) (pick p)])
     else field d ++ [calculate_speed (pick cur) (pick p)]).
Hypothesis pick_bounded : forall (bound : Z) (c : Z * Z),
  0 <= fst c <= bound /\ 0 <= snd c <= bound -> 0 <= pick c <= bound.

Variable history : Z.
Variable i : string.

Lemma history_of_entry_before (now : string -> Z) (data : interfaces) :
  field (entry_before now i data) = history_of field i data.
Proof.
  rewrite entry_before_lookup. unfold history_of.
  destruct (lookup i data); [reflexivity | apply field_new].
Qed.

(** While the window has room, the stored history is the old one followed
    by the samples of the calls. *)
Lemma main_calls_histories (readings : list ((string -> Z) * snapshot)) :
  forall (previous_stats : snapshot) (data : interfaces),
    In i (keys previous_stats) ->
    (forall r, In r readings -> unique_keys (snd r) /\ In i (keys (snd r))) ->
    Z.of_nat (history_length i data) + Z.of_nat (List.length readings)
    <= history ->
    history_of field i
      (fold_left do_call (main_calls history previous_stats readings) data)
    = history_of field i data
      ++ observed pick i (main_calls history previous_stats readings).
Proof.
  induction readings as [| [now current_stats] readings IH];
    intros previous_stats data Hprev Hall Hroom.
  - simpl. now rewrite app_nil_r.
  - cbn [main_calls fold_left]. cbn [List.length] in Hroom.
    destruct (Hall (now, current_stats) (or_introl eq_refl)) as [Hnd Hin].
    cbn [snd] in Hnd, Hin.
    apply lookup_some_keys in Hprev. destruct Hprev as [p Hp].
    pose proof Hin as Hcur. apply lookup_some_keys in Hcur.
    destruct Hcur as [cur Hcur].
    set (c := {| call_now := now; call_stats := current_stats;
                 call_previous := previous_stats; call_history := history |}).
    assert (Hentry : lookup i (do_call data c)
                     = Some (record_sample cur p history
                                           (entry_before now i data))).
    { unfold do_call, c. cbn [call_now call_stats call_previous call_history].
      apply update_data_entry; [exact Hnd | now apply lookup_in | exact Hp]. }
    assert (Hkeep : (Z.of_nat (S (List.length (timestamps (entry_before now i data))))
                     >? history) = false).
    { rewrite history_length_entry_before. rewrite Z.gtb_ltb. apply Z.ltb_ge. lia. }
    assert (Hlen : history_length i (do_call data c)
                   = S (history_length i data)).
    { unfold history_length at 1. rewrite Hentry.
      unfold record_sample. cbn [timestamps]. rewrite length_snoc, Hkeep.
      now rewrite length_snoc, history_length_entry_before. }
    rewrite IH; [| exact Hin | intros r Hr; apply Hall; now right
                 | rewrite Hlen; lia].
    unfold history_of at 1. rewrite Hentry, field_record, Hkeep.
    rewrite history_of_entry_before.
    unfold observed. cbn [flat_map].
    rewrite (samples_of_call_present pick i c cur p);
      [| exact Hnd | now apply lookup_in | exact Hp].
    now rewrite <- app_assoc.
Qed.

(** The samples of the driver telescope while the counters stay within
    2^53. *)
Lemma observed_telescope (readings : list ((string -> Z) * snapshot)) :
  forall (previous_stats : snapshot) (first final : Z * Z),
    lookup i previous_stats = Some first ->
    (forall r, In r readings -> unique_keys (snd r) /\ In i (keys (snd r))) ->
    lookup i (last (map snd readings) previous_stats) = Some final ->
    (forall snap, In snap (previous_stats :: map snd readings) ->
       counters_below (2 ^ 53) i snap) ->
    (sum_samples (observed pick i (main_calls history previous_stats readings))
     * 1024 == inject_Z (pick final - pick first))%Q.
Proof.
  induction readings as [| [now current_stats] readings IH];
    intros previous_stats first final Hfirst Hall Hfinal Hbound.
  - simpl in *. assert (final = first) by congruence. subst.
    rewrite Z.sub_diag. reflexivity.
  - destruct (Hall (now, current_stats) (or_introl eq_refl)) as [Hnd Hin].
    cbn [snd] in Hnd, Hin.
    apply lookup_some_keys in Hin. destruct Hin as [cur Hcur].
    cbn [map snd] in Hfinal, Hbound. rewrite last_cons_default in Hfinal.
    assert (Hb0 : 0 <= pick first <= 2 ^ 53).
    { apply pick_bounded. apply (Hbound previous_stats); [now left | exact Hfirst]. }
    assert (Hb1 : 0 <= pick cur <= 2 ^ 53).
    { apply pick_bounded.
      apply (Hbound current_stats); [right; now left | exact Hcur]. }
    unfold observed in *. cbn [main_calls flat_map].
    rewrite (samples_of_call_present pick i _ cur first);
      [| exact Hnd | now apply lookup_in | exact Hfirst].
    cbn [app sum_samples fold_right].
    fold (sum_samples
            (flat_map (samples_of_call pick i)
                      (main_calls history current_stats readings))).
    rewrite Qmult_plus_distr_l.
    rewrite (IH current_stats cur final Hcur); [| | exact Hfinal |].
    + rewrite calculate_speed_exact by lia. rewrite <- inject_Z_plus.
      now replace (pick cur - pick first + (pick final - pick cur))
        with (pick final - pick first) by lia.
    + intros r Hr. apply Hall. now right.
    + intros snap Hs. apply Hbound. now right.
Qed.

Lemma stored_history_telescopes (previous_stats : snapshot)
    (readings : list ((string -> Z) * snapshot)) (first final : Z * Z) :
  lookup i previous_stats = Some first ->
  (forall r, In r readings -> unique_keys (snd r) /\ In i (keys (snd r))) ->
  lookup i (last (map snd readings) previous_stats) = Some final ->
  (forall snap, In snap (previous_stats :: map snd readings) ->
     counters_below (2 ^ 53) i snap) ->
  Z.of_nat (List.length readings) <= history ->
  (sum_samples
     (history_of field i (run (main_calls history previous_stats readings)))
   * 1024 == inject_Z (pick final - pick first))%Q.
Proof.
  intros Hfirst Hall Hfinal Hbound Hroom. unfold run.
  rewrite main_calls_histories.
  - cbn [history_of lookup interfaces_data_init app].
    now apply observed_telescope.
  - apply lookup_some_keys. now exists first.
  - exact Hall.
  - exact Hroom.
Qed.

End Histories.

(** X10: the driver compares each snapshot with the one read before it, so
    while the window has room and the counters stay within 0..2^53 the
    stored history of an interface that every snapshot holds telescopes:
    the sum of its samples times 1024 is the last counter less the first,
    for the sent and for the received counter, also when a counter went
    down in between. *)
Theorem samples_telescope (history : Z) (i : string)
    (previous_stats : snapshot) (readings : list ((string -> Z) * snapshot))
    (first final : Z * Z) :
  lookup i previous_stats = Some first ->
  (forall r, In r readings -> unique_keys (snd r) /\ In i (keys (snd r))) ->
  lookup i (last (map snd readings) previous_stats) = Some final ->
  (forall snap, In snap (previous_stats :: map snd readings) ->
     counters_below (2 ^ 53) i snap) ->
  Z.of_nat (List.length readings) <= history ->
  let data := run (main_calls history previous_stats readings) in
  (sum_samples (history_of bytes_sent i data) * 1024
   == inject_Z (fst final - fst first))%Q
  /\ (sum_samples (history_of bytes_recv i data) * 1024
      == inject_Z (snd final - snd first))%Q
  /\ Z.of_nat (List.length (history_of bytes_sent i data))
     = Z.of_nat (List.length readings).
Proof.
  intros Hfirst Hall Hfinal Hbound Hroom data. subst data.
  assert (Hrec_s : forall cur p hs d,
             bytes_sent (record_sample cur p hs d)
             = (if Z.of_nat (S (List.length (timestamps d))) >? hs
                then tl (bytes_sent d ++ [calculate_speed (fst cur) (fst p)])
                else bytes_sent d ++ [calculate_speed (fst cur) (fst p)])).
  { intros. unfold record_sample. cbn [bytes_sent]. now rewrite length_snoc. }
  assert (Hrec_r : forall cur p hs d,
             bytes_recv (record_sample cur p hs d)
             = (if Z.of_nat (S (List.length (timestamps d))) >? hs
                then tl (bytes_recv d ++ [calculate_speed (snd cur) (snd p)])
                else bytes_recv d ++ [calculate_speed (snd cur) (snd p)])).
  { intros. unfold record_sample. cbn [bytes_recv]. now rewrite length_snoc. }
  split; [| split].
  - apply (stored_history_telescopes fst bytes_sent); try assumption.
    + reflexivity.
    + intros bound c H. tauto.
  - apply (stored_history_telescopes snd bytes_recv); try assumption.
    + reflexivity.
    + intros bound c H. tauto.
  - unfold run.
    rewrite (main_calls_histories fst bytes_sent (fun _ => eq_refl) Hrec_s
               history i readings previous_stats interfaces_data_init);
      [| apply lookup_some_keys; now exists first | exact Hall | exact Hroom].
    cbn [history_of lookup interfaces_data_init app].
    clear Hfinal Hbound Hroom. revert previous_stats first Hfirst.
    induction readings as [| [now current_stats] readings IH];
      intros previous_stats first Hfirst; [reflexivity |].
    destruct (Hall (now, current_stats) (or_introl eq_refl)) as [Hnd Hin].
    cbn [snd] in Hnd, Hin.
    apply lookup_some_keys in Hin. destruct Hin as [cur Hcur].
    unfold observed in *. cbn [main_calls flat_map].
    rewrite (samples_of_call_present fst i _ cur first);
      [| exact Hnd | now apply lookup_in | exact Hfirst].
    cbn [app List.length].
    rewrite !Nat2Z.inj_succ. f_equal.
    apply (IH (fun r Hr => Hall r (or_intror Hr)) current_stats cur Hcur).
Qed.

Lemma samples_telescope_witness :
  let data := run (main_calls 3 (eth0 100 0)
                     [(clock0, eth0 5000 1); (clock0, eth0 300 2);
                      (clock0, eth0 7000 3)]) in
  (sum_samples (history_of bytes_sent "eth0" data) * 1024
   == inject_Z (7000 - 100))%Q
  /\ (sum_samples (history_of bytes_recv "eth0" data) * 1024
      == inject_Z (3 - 0))%Q
  /\ Z.of_nat (List.length (history_of bytes_sent "eth0" data))
     = Z.of_nat 3.
Proof.
  apply (samples_telescope 3 "eth0" (eth0 100 0)
           [(clock0, eth0 5000 1); (clock0, eth0 300 2); (clock0, eth0 7000 3)]
           (100, 0) (7000, 3)).
  - reflexivity.
  - intros r Hr. simpl in Hr.
    destruct Hr as [<- | [<- | [<- | []]]];
      (split; [unfold unique_keys; simpl;
               constructor; [simpl; tauto | constructor]
              | now left]).
  - reflexivity.
  - intros snap Hs c Hc. simpl in Hs.
    destruct Hs as [<- | [<- | [<- | [<- | []]]]];
      simpl in Hc; injection Hc as <-; simpl; lia.
  - simpl. lia.
Defined.

(** ** The chart *)

(** X11: with auto-scale the y axis runs from 0 to a limit that is at
    least 1.1 and strictly above every sample of every history, so no
    sample touches the top of the chart; without auto-scale no limit is
    set. *)
Theorem y_axis_above_every_sample (data : interfaces) :
  (exists u : Q,
     y_limits true data = Some (0%Q, u)
     /\ (11 # 10 <= u)%Q
     /\ Forall (fun x => (x < u)%Q) (all_samples data))
  /\ y_limits false data = None.
Proof.
  split; [| reflexivity].
  exists (b64_round (max_speed data * float_1_1)). split; [reflexivity |].
  destruct (max_speed_is_max data) as [_ Hall].
  inversion Hall as [| ? ? H1 Hrest]; subst.
  set (m := max_speed data) in *.
  assert (Hc : (11 # 10 <= float_1_1)%Q) by (vm_compute; discriminate).
  assert (Hrep : (float_1_1 == inject_Z 4953959590107546 * 2 ^ (-52))%Q)
    by (vm_compute; reflexivity).
  assert (Hmc : (float_1_1 <= m * float_1_1)%Q).
  { setoid_replace float_1_1 with (1 * float_1_1)%Q at 1 by ring.
    apply Qmult_le_compat_r; [exact H1 | lra]. }
  assert (Hpos : (0 < m * float_1_1)%Q) by lra.
  assert (Hu : (b64_round (m * float_1_1) == nearest_pos (m * float_1_1))%Q).
  { rewrite b64_round_nearest. now rewrite nearest_positive. }
  pose proof (nearest_pos_ge (m * float_1_1) float_1_1 4953959590107546 (-52)
                             ltac:(lia) Hrep Hmc) as Hge.
  pose proof (nearest_pos_lower (m * float_1_1) Hpos) as Hlow.
  assert (Hm11 : ((11 # 10) * m <= m * float_1_1)%Q).
  { rewrite (Qmult_comm m). apply Qmult_le_compat_r; [exact Hc | lra]. }
  split.
  - rewrite Hu. lra.
  - eapply Forall_impl; [| exact Hrest]. intros x Hx. cbn beta in Hx.
    rewrite Hu. lra.
Qed.

Lemma color_at_in_palette (color_idx : Z) : In (color_at color_idx) colors.
Proof.
  unfold color_at. apply nth_In.
  assert (H : 0 <= color_idx mod Z.of_nat (List.length colors)
              < Z.of_nat (List.length colors))
    by (apply Z.mod_pos_bound; simpl; lia).
  lia.
Qed.

Lemma color_at_period (color_idx : Z) :
  color_at (color_idx + 6) = color_at color_idx.
Proof.
  unfold color_at. cbn [colors List.length Z.of_nat Pos.of_succ_nat Pos.succ].
  now replace ((color_idx + 6) mod 6) with (color_idx mod 6)
    by (rewrite <- (Z.mul_1_l 6) at 2; now rewrite Z.mod_add).
Qed.

Lemma interface_plots_period (items : interfaces) (color_idx : Z) :
  interface_plots (color_idx + 6) items = interface_plots color_idx items.
Proof.
  revert color_idx. induction items as [| [i d] items IH]; intros color_idx.
  - reflexivity.
  - cbn [interface_plots]. destruct (truthy (timestamps d)); [| apply IH].
    rewrite color_at_period.
    replace (color_idx + 6 + 1) with (color_idx + 1 + 6) by lia.
    replace (color_idx + 6 + 2) with (color_idx + 2 + 6) by lia.
    now rewrite color_at_period, IH.
Qed.

Lemma interface_plots_shape (items : interfaces) (color_idx : Z) :
  List.length (interface_plots color_idx items)
  = (2 * active_interfaces items)%nat
  /\ Forall (fun p => In (plot_color p) colors)
            (interface_plots color_idx items).
Proof.
  unfold active_interfaces. revert color_idx.
  induction items as [| [i d] items IH]; intros color_idx.
  - split; [reflexivity | constructor].
  - cbn [interface_plots values map snd filter].
    destruct (truthy (timestamps d)).
    + destruct (IH (color_idx + 2)) as [Hlen Hcol]. split.
      * cbn [List.length]. rewrite Hlen. fold (values items). lia.
      * constructor; [apply color_at_in_palette |].
        constructor; [apply color_at_in_palette | exact Hcol].
    + apply IH.
Qed.

Lemma interface_plots_lines (items : interfaces) (color_idx : Z) :
  map (fun p => (plot_x p, plot_y p, plot_label p))
      (interface_plots color_idx items)
  = flat_map
      (fun item : string * series =>
         if truthy (timestamps (snd item))
         then [ (timestamps (snd item), bytes_sent (snd item),
                 (fst item ++ " (TX)")%string);
                (timestamps (snd item), bytes_recv (snd item),
                 (fst item ++ " (RX)")%string) ]
         else [])
      items.
Proof.
  revert color_idx. induction items as [| [i d] items IH]; intros color_idx.
  - reflexivity.
  - cbn [interface_plots flat_map fst snd].
    destruct (truthy (timestamps d)).
    + cbn [map app plot_x plot_y plot_label]. now rewrite IH.
    + apply IH.
Qed.

Lemma interface_plots_colours (items : interfaces) (color_idx : Z) :
  map plot_color (interface_plots color_idx items)
  = map (fun j => color_at (color_idx + Z.of_nat j))
        (seq 0 (List.length (interface_plots color_idx items))).
Proof.
  revert color_idx. induction items as [| [i d] items IH]; intros color_idx.
  - reflexivity.
  - cbn [interface_plots]. destruct (truthy (timestamps d)); [| apply IH].
    cbn [map List.length seq plot_color].
    rewrite Z.add_0_r. f_equal.
    change (Z.of_nat 1) with 1. f_equal.
    rewrite IH, <- !seq_shift, !map_map.
    apply map_ext. intros j. f_equal. lia.
Qed.

(** X12: the figure has, in the order of the state, one TX line and one RX
    line for each interface with a history and none for the others; both
    have the time index of the interface as x values, the TX line has its
    sent history and the RX line its received history, under the labels
    of the interface; line number j, from 0, has colour j of the palette,
    counted round. *)
Theorem two_lines_per_active_interface (chart_width height : Z)
    (auto_scale : bool) (history_size : Z) (dark_mode : bool)
    (data : interfaces) :
  let fig := chart_figure chart_width height auto_scale history_size
                          dark_mode data in
  map (fun p => (plot_x p, plot_y p, plot_label p)) (plots fig)
  = flat_map
      (fun item : string * series =>
         if truthy (timestamps (snd item))
         then [ (timestamps (snd item), bytes_sent (snd item),
                 (fst item ++ " (TX)")%string);
                (timestamps (snd item), bytes_recv (snd item),
                 (fst item ++ " (RX)")%string) ]
         else [])
      data
  /\ map plot_color (plots fig)
     = map (fun j => nth (j mod 6) colors ""%string)
           (seq 0 (List.length (plots fig)))
  /\ List.length (plots fig) = (2 * active_interfaces data)%nat
  /\ Forall (fun p => In (plot_color p) colors) (plots fig).
Proof.
  cbn zeta. cbn [plots chart_figure]. split; [| split].
  - apply interface_plots_lines.
  - rewrite interface_plots_colours. apply map_ext. intros j.
    unfold color_at. cbn [colors List.length]. f_equal.
    change (Z.of_nat 6) with 6. rewrite Z.add_0_l.
    rewrite <- (Nat2Z.id (j mod 6)). f_equal.
    now rewrite Nat2Z.inj_mod.
  - apply interface_plots_shape.
Qed.

(** X13: the palette has six colours and each interface takes two, so the
    colours come round after three interfaces: behind three interfaces with
    a history, the lines of the others are coloured as if they came
    first. *)
Theorem colours_repeat_after_three (a b c : string * series)
    (rest : interfaces) :
  truthy (timestamps (snd a)) = true ->
  truthy (timestamps (snd b)) = true ->
  truthy (timestamps (snd c)) = true ->
  skipn 6 (interface_plots 0 (a :: b :: c :: rest)) = interface_plots 0 rest.
Proof.
  destruct a as [ia da], b as [ib db], c as [ic dc]. cbn [snd].
  intros Ha Hb Hc. cbn [interface_plots]. rewrite Ha, Hb, Hc.
  cbn [skipn]. apply (interface_plots_period rest 0).
Qed.

Lemma colours_repeat_after_three_witness :
  let e := entry_before clock0 "eth0" (run [tick 60 (eth0 0 0) (eth0 1 1)]) in
  let items := [("a"%string, e); ("b"%string, e); ("c"%string, e);
                ("d"%string, e)] in
  map plot_color (skipn 6 (interface_plots 0 items)) = ["red"; "blue"]%string
  /\ skipn 6 (interface_plots 0 items) = interface_plots 0 [("d"%string, e)].
Proof.
  intros e items. split; [reflexivity |].
  apply (colours_repeat_after_three ("a"%string, e) ("b"%string, e)
                                    ("c"%string, e) [("d"%string, e)]);
    reflexivity.
Defined.

(** ** The lines of the panel *)

Lemma py_len_app (s t : string) :
  py_len (s ++ t) = (py_len s + py_len t)%nat.
Proof.
  induction s as [| c s IH]; [reflexivity |].
  simpl. rewrite IH. lia.
Qed.

Lemma py_len_blanks (n : Z) : py_len (repeat_str " " n) = Z.to_nat n.
Proof.
  unfold repeat_str. induction (Z.to_nat n) as [| m IH]; [reflexivity |].
  cbn [repeat_nat]. rewrite py_len_app, IH. reflexivity.
Qed.

(** X14: a line of the panel is never cut: between its two borders it has
    the panel width less the emoji count in code points, or the length of
    its text when that is longer. *)
Theorem add_line_width (panel_width : Z) (text : string) (emoji_count : Z) :
  Z.of_nat (py_len (add_line panel_width text emoji_count))
  = 2 + Z.max (panel_width - emoji_count) (Z.of_nat (py_len text)).
Proof.
  unfold add_line, ljust.
  rewrite !py_len_app, py_len_blanks.
  change (py_len "│") with 1%nat. lia.
Qed.

(** ** The frame *)

Lemma int_of_three_quarters (width : Z) :
  int_of (inject_Z width * (3 # 4)) = Z.quot (3 * width) 4.
Proof.
  unfold int_of, Qneg_bool, Qcompare, Qceiling, Qfloor, Qopp, Qmult, inject_Z.
  cbn [Qnum Qden Pos.mul]. rewrite Z.mul_0_l.
  replace (width * 3 * 1) with (3 * width) by lia.
  replace (width * 3) with (3 * width) by lia.
  destruct (Z.compare_spec (3 * width) 0) as [H | H | H].
  - rewrite H. reflexivity.
  - rewrite <- (Z.opp_involutive (3 * width)) at 2.
    rewrite Z.quot_opp_l by lia.
    now rewrite Z.quot_div_nonneg by lia.
  - now rewrite Z.quot_div_nonneg by lia.
Qed.

(** Up to 2^51 in size a width times 0.75 needs no rounding. *)
Lemma chart_width_exact (width : Z) :
  Z.abs width <= 2 ^ 51 ->
  int_of (b64_round (b64_round (inject_Z width) * (3 # 4)))
  = Z.quot (3 * width) 4.
Proof.
  intros Hw.
  assert (H1 : b64_round (inject_Z width) = inject_Z width).
  { apply b64_round_exact, nearest_representable.
    exists width, 0. split; [lia |]. change (2 ^ 0)%Q with 1%Q. ring. }
  rewrite H1.
  assert (H2 : b64_round (inject_Z width * (3 # 4))
               = (inject_Z width * (3 # 4))%Q).
  { apply b64_round_exact, nearest_representable.
    exists (3 * width), (-2). split; [lia |].
    rewrite inject_Z_mult. change (2 ^ (-2))%Q with (1 # 4)%Q.
    change (inject_Z 3) with 3%Q. field. }
  rewrite H2. apply int_of_three_quarters.
Qed.

(** X15: whenever [plot_network_traffic] returns, on a terminal whose width
    less the margin is at most 2^51: the frame has as many rows as the
    terminal less three, the chart takes three quarters of the width left
    after the margin, rounded towards zero, and the [show_stats] flag
    changes nothing. *)
Theorem frame_of_render (columns rows : Z)
    (build : figure -> list string) (net_if_stats : dict bool) (now : Z)
    (show_stats auto_scale : bool) (history_size : Z) (dark_mode : bool)
    (data : interfaces) (fig : figure) (frame : list string) :
  Z.abs (columns - 5) <= 2 ^ 51 ->
  plot_network_traffic (columns, rows) build net_if_stats now show_stats
                       auto_scale history_size dark_mode data
  = Ok (fig, frame) ->
  List.length frame = Z.to_nat (rows - 3)
  /\ plotsize fig = (Z.quot (3 * (columns - 5)) 4, rows - 3)
  /\ plot_network_traffic (columns, rows) build net_if_stats now
                          (negb show_stats) auto_scale history_size
                          dark_mode data
     = Ok (fig, frame).
Proof.
  intros Hw. unfold plot_network_traffic, get_terminal_size.
  destruct (create_stats_display _ _ _ _ _) as [lines |]; cbn [bind];
    [| discriminate].
  intros [= <- <-].
  split; [now rewrite length_map, length_range |].
  split; [| reflexivity].
  cbn [plotsize chart_figure]. now rewrite chart_width_exact.
Qed.

Lemma frame_of_render_witness :
  exists fig frame,
    plot_network_traffic (80, 24) (fun _ => []) [] 0 true true 60 false
                         (run [tick 60 (eth0 0 0) (eth0 1024 2048)])
    = Ok (fig, frame)
    /\ List.length frame = Z.to_nat (24 - 3)
    /\ plotsize fig = (Z.quot (3 * (80 - 5)) 4, 24 - 3)
    /\ plot_network_traffic (80, 24) (fun _ => []) [] 0 (negb true) true 60
                            false (run [tick 60 (eth0 0 0) (eth0 1024 2048)])
       = Ok (fig, frame).
Proof.
  eexists. eexists. split; [vm_compute; reflexivity |].
  apply (frame_of_render 80 24 (fun _ => []) [] 0 true true 60 false
                         (run [tick 60 (eth0 0 0) (eth0 1024 2048)])).
  - simpl. lia.
  - vm_compute. reflexivity.
Defined.

(** ** The duration *)

Section Duration.

Local Open Scope Q_scope.

Lemma Qfloor_unique (j : Z) (y : Q) :
  inject_Z j <= y -> y < inject_Z (j + 1) -> Qfloor y = j.
Proof.
  intros Hl Hu. pose proof (Qfloor_le y) as Hf.
  apply Qfloor_resp_le in Hl. rewrite Qfloor_Z in Hl.
  assert (Hlt : inject_Z (Qfloor y) < inject_Z (j + 1)) by lra.
  rewrite <- Zlt_Qlt in Hlt. lia.
Qed.

Lemma Qfloor_bounds (y : Q) :
  inject_Z (Qfloor y) <= y /\ y < inject_Z (Qfloor y) + 1.
Proof.
  pose proof (Qfloor_le y) as Hl. pose proof (Qlt_floor y) as Hu.
  rewrite inject_Z_plus in Hu. change (inject_Z 1) with 1 in Hu. now split.
Qed.

Lemma Qfloor_div_int (x : Q) (n : Z) :
  (0 < n)%Z -> Qfloor (x / inject_Z n) = (Qfloor x / n)%Z.
Proof.
  intros Hn. destruct (Qfloor_bounds x) as [Hl Hu].
  assert (Hn' : 0 < inject_Z n)
    by (change 0 with (inject_Z 0); now rewrite <- Zlt_Qlt).
  pose proof (Z.div_mod (Qfloor x) n ltac:(lia)) as Hdm.
  pose proof (Z.mod_pos_bound (Qfloor x) n Hn) as Hr.
  set (j := (Qfloor x / n)%Z) in *.
  assert (Hf : inject_Z (Qfloor x)
               == inject_Z n * inject_Z j + inject_Z (Qfloor x mod n)).
  { rewrite <- inject_Z_mult, <- inject_Z_plus. now rewrite <- Hdm. }
  assert (Hr0 : 0 <= inject_Z (Qfloor x mod n))
    by (change 0 with (inject_Z 0); rewrite <- Zle_Qle; lia).
  assert (Hr1 : inject_Z (Qfloor x mod n) + 1 <= inject_Z n).
  { change 1 with (inject_Z 1). rewrite <- inject_Z_plus, <- Zle_Qle. lia. }
  apply Qfloor_unique.
  - apply Qle_shift_div_l; [exact Hn' |]. lra.
  - apply Qlt_shift_div_r; [exact Hn' |].
    rewrite inject_Z_plus. change (inject_Z 1) with 1. lra.
Qed.

Lemma Qneg_bool_nonneg (x : Q) : 0 <= x -> Qneg_bool x = false.
Proof.
  intros H. unfold Qneg_bool.
  destruct (Qcompare_spec x 0) as [E | E | E]; try reflexivity. lra.
Qed.

Lemma int_of_nonneg (x : Q) : 0 <= x -> int_of x = Qfloor x.
Proof. intros H. unfold int_of. now rewrite Qneg_bool_nonneg. Qed.

(** For [x >= 0] the remainder of C is the one of the floor. *)
Lemma fmod_nonneg (x : Q) (n : Z) :
  0 <= x -> (0 < n)%Z ->
  fmod x (inject_Z n) == x - inject_Z (n * (Qfloor x / n))
  /\ 0 <= fmod x (inject_Z n)
  /\ fmod x (inject_Z n) < inject_Z n.
Proof.
  intros Hx Hn.
  assert (Hn' : 0 < inject_Z n)
    by (change 0 with (inject_Z 0); now rewrite <- Zlt_Qlt).
  assert (Hq : 0 <= x / inject_Z n).
  { apply Qle_shift_div_l; [exact Hn' | lra]. }
  unfold fmod. rewrite (int_of_nonneg _ Hq), Qfloor_div_int by exact Hn.
  rewrite <- (Qfloor_div_int x n Hn).
  destruct (Qfloor_bounds (x / inject_Z n)) as [Hl Hu].
  set (h := inject_Z (Qfloor (x / inject_Z n))) in *.
  assert (Hxn : x == x / inject_Z n * inject_Z n) by (field; lra).
  assert (H1 : h * inject_Z n <= x / inject_Z n * inject_Z n)
    by (apply Qmult_le_compat_r; lra).
  assert (H2 : x / inject_Z n * inject_Z n < (h + 1) * inject_Z n)
    by (apply Qmult_lt_compat_r; lra).
  rewrite inject_Z_mult. fold h. repeat split; lra.
Qed.

Lemma float_rem_nonneg (x : Q) (n : Z) :
  0 <= x -> (0 < n)%Z ->
  float_rem x (inject_Z n) == x - inject_Z (n * (Qfloor x / n))
  /\ 0 <= float_rem x (inject_Z n)
  /\ float_rem x (inject_Z n) < inject_Z n.
Proof.
  intros Hx Hn. destruct (fmod_nonneg x n Hx Hn) as (He & H0 & H1).
  assert (Hn' : 0 < inject_Z n) by lra.
  unfold float_rem.
  destruct (Qeq_bool (fmod x (inject_Z n)) 0) eqn:E.
  - apply Qeq_bool_iff in E. rewrite <- He, E. repeat split; lra.
  - rewrite (Qneg_bool_nonneg _ H0). now repeat split.
Qed.

(** For [0 <= x < 2^53] the floor division of floats is the one of the
    integers below. *)
Lemma float_floordiv_nonneg (x : Q) (n : Z) :
  0 <= x -> x < inject_Z (2 ^ 53) -> (0 < n)%Z ->
  float_floordiv x (inject_Z n) = (Qfloor x / n)%Z.
Proof.
  intros Hx Hb Hn. destruct (fmod_nonneg x n Hx Hn) as (He & H0 & H1).
  assert (Hn' : 0 < inject_Z n) by lra.
  destruct (Qfloor_bounds x) as [Hfl Hfu].
  assert (Hf0 : (0 <= Qfloor x)%Z).
  { apply Qfloor_resp_le in Hx. exact Hx. }
  assert (Hf1 : (Qfloor x < 2 ^ 53)%Z).
  { rewrite Zlt_Qlt. lra. }
  set (h := (Qfloor x / n)%Z) in *.
  assert (Hh : (0 <= h /\ n * h <= Qfloor x)%Z).
  { unfold h. split; [apply Z.div_pos; lia | apply Z.mul_div_le; lia]. }
  assert (Hhn : (h <= n * h)%Z) by nia.
  assert (Hsub : x - fmod x (inject_Z n) == inject_Z (n * h)) by lra.
  assert (E1 : b64_round (x - fmod x (inject_Z n)) = x - fmod x (inject_Z n)).
  { apply b64_round_exact, nearest_representable.
    exists (n * h)%Z, 0%Z. split; [lia |]. rewrite Hsub.
    change (2 ^ 0) with 1. ring. }
  assert (Hdiv : (x - fmod x (inject_Z n)) / inject_Z n == inject_Z h).
  { rewrite Hsub, inject_Z_mult. field. lra. }
  assert (E2 : b64_round ((x - fmod x (inject_Z n)) / inject_Z n)
               = (x - fmod x (inject_Z n)) / inject_Z n).
  { apply b64_round_exact, nearest_representable.
    exists h, 0%Z. split; [lia |]. rewrite Hdiv.
    change (2 ^ 0) with 1. ring. }
  unfold float_floordiv. rewrite E1, E2, (Qneg_bool_nonneg _ H0).
  rewrite andb_false_r.
  set (div := (x - fmod x (inject_Z n)) / inject_Z n) in *.
  destruct (Qeq_bool div 0) eqn:E.
  - apply Qeq_bool_iff in E. rewrite Hdiv in E.
    unfold Qeq in E. simpl in E. lia.
  - rewrite (Qfloor_comp _ _ Hdiv), Qfloor_Z.
    destruct (Qcompare_spec (div - inject_Z h) (1 # 2)) as [C | C | C];
      try reflexivity.
    rewrite Hdiv in C. lra.
Qed.

Lemma nearest_pos_upper (x : Q) :
  0 < x -> nearest_pos x <= x + x * (1 # 9007199254740992).
Proof.
  intros Hpos.
  destruct (scaled_bounds x Hpos) as (Hsplit & H52 & _).
  unfold nearest_pos. set (e := (ilog2 x - 52)%Z) in *.
  pose proof (pow2_pos e) as Hp.
  set (t := x * 2 ^ (- e)) in *.
  destruct (round_half_even_bounds t) as [Hup _].
  set (M := inject_Z (round_half_even t)) in *.
  set (p := 2 ^ e) in *.
  change (inject_Z (2 ^ 52)) with 4503599627370496 in H52.
  assert (Hx : x == t * p) by exact Hsplit.
  rewrite Hx.
  assert (H1 : (M - t) * p <= (1 # 2) * p) by (apply Qmult_le_compat_r; lra).
  assert (H2 : 4503599627370496 * p <= t * p) by (apply Qmult_le_compat_r; lra).
  lra.
Qed.

(** Below 9 * 10^15 microseconds the rounding of the seconds crosses no
    whole second. *)
Lemma total_seconds_floor (microseconds : Z) :
  (0 <= microseconds < 9000000000000000)%Z ->
  inject_Z (microseconds / 1000000) <= total_seconds microseconds
  /\ total_seconds microseconds < inject_Z (microseconds / 1000000 + 1).
Proof.
  intros [Hu0 Hu1]. unfold total_seconds.
  set (x := inject_Z microseconds / inject_Z 1000000).
  set (q := (microseconds / 1000000)%Z).
  pose proof (Z.div_mod microseconds 1000000 ltac:(lia)) as Hdm.
  pose proof (Z.mod_pos_bound microseconds 1000000 ltac:(lia)) as Hr.
  fold q in Hdm.
  assert (Hq0 : (0 <= q)%Z) by (unfold q; apply Z.div_pos; lia).
  assert (Hq1 : (q < 9000000000)%Z) by lia.
  assert (Hxq : inject_Z q <= x).
  { unfold x. apply Qle_shift_div_l; [reflexivity |].
    rewrite <- inject_Z_mult, <- Zle_Qle. lia. }
  assert (Hxu : x + (1 # 1000000) <= inject_Z q + 1).
  { assert (H : x * 1000000 == inject_Z microseconds) by (unfold x; field).
    assert (H' : inject_Z microseconds + 1 <= (inject_Z q + 1) * 1000000).
    { change 1 with (inject_Z 1). change 1000000 with (inject_Z 1000000).
      rewrite <- !inject_Z_plus, <- inject_Z_mult, <- Zle_Qle. lia. }
    lra. }
  assert (Hqb : inject_Z q < 9000000000).
  { change 9000000000 with (inject_Z 9000000000). now rewrite <- Zlt_Qlt. }
  rewrite inject_Z_plus. change (inject_Z 1) with 1.
  rewrite b64_round_nearest.
  destruct (Qlt_le_dec 0 x) as [Hpos | Hzero].
  - rewrite (nearest_positive x Hpos).
    pose proof (nearest_pos_upper x Hpos) as Hup.
    pose proof (nearest_pos_lower x Hpos) as Hlow.
    split; [| lra].
    destruct (Z.eq_dec q 0) as [-> | Hq].
    + change (inject_Z 0) with 0. lra.
    + apply (nearest_pos_ge x (inject_Z q) q 0); [lia | | exact Hxq].
      change (2 ^ 0) with 1. ring.
  - assert (Hx0 : x == 0).
    { apply Qle_antisym; [exact Hzero |].
      apply Qle_trans with (inject_Z q); [| exact Hxq].
      change 0 with (inject_Z 0). now rewrite <- Zle_Qle. }
    unfold nearest.
    assert (Hc : Qcompare x 0 = Eq) by now apply Qeq_alt.
    rewrite Hc. lra.
Qed.

Lemma duration_parts_div (microseconds : Z) :
  (0 <= microseconds < 9000000000000000)%Z ->
  duration_parts microseconds
  = ((microseconds / 1000000 / 3600)%Z,
     ((microseconds / 1000000) mod 3600 / 60)%Z,
     ((microseconds / 1000000) mod 60)%Z).
Proof.
  intros Hu. destruct (total_seconds_floor microseconds Hu) as [Hl Hh].
  unfold duration_parts.
  set (t := total_seconds microseconds) in *.
  set (q := (microseconds / 1000000)%Z) in *.
  assert (Hq0 : (0 <= q)%Z) by (unfold q; apply Z.div_pos; lia).
  assert (Hq1 : (q < 9000000000)%Z).
  { unfold q. apply Z.div_lt_upper_bound; lia. }
  assert (Ht0 : 0 <= t).
  { apply Qle_trans with (inject_Z q); [| exact Hl].
    change 0 with (inject_Z 0). now rewrite <- Zle_Qle. }
  assert (Hfloor : Qfloor t = q) by now apply Qfloor_unique.
  rewrite inject_Z_plus in Hh. change (inject_Z 1) with 1 in Hh.
  assert (Ht1 : t < inject_Z (2 ^ 53)).
  { apply Qlt_trans with (inject_Z q + 1); [exact Hh |].
    change 1 with (inject_Z 1). rewrite <- inject_Z_plus, <- Zlt_Qlt. lia. }
  change 3600 with (inject_Z 3600). change 60 with (inject_Z 60).
  rewrite (float_floordiv_nonneg t 3600 Ht0 Ht1 ltac:(lia)), Hfloor.
  destruct (float_rem_nonneg t 3600 Ht0 ltac:(lia)) as (Er & Hr0 & Hr1).
  destruct (float_rem_nonneg t 60 Ht0 ltac:(lia)) as (Es & Hs0 & Hs1).
  rewrite Hfloor in Er, Es.
  assert (Fr : Qfloor (float_rem t (inject_Z 3600)) = (q mod 3600)%Z).
  { apply Qfloor_unique.
    - rewrite Er, Z.mod_eq by lia. unfold Z.sub.
      rewrite inject_Z_plus, inject_Z_opp. lra.
    - rewrite Er, Z.mod_eq by lia. unfold Z.sub.
      rewrite !inject_Z_plus, inject_Z_opp. change (inject_Z 1) with 1. lra. }
  assert (Fs : Qfloor (float_rem t (inject_Z 60)) = (q mod 60)%Z).
  { apply Qfloor_unique.
    - rewrite Es, Z.mod_eq by lia. unfold Z.sub.
      rewrite inject_Z_plus, inject_Z_opp. lra.
    - rewrite Es, Z.mod_eq by lia. unfold Z.sub.
      rewrite !inject_Z_plus, inject_Z_opp. change (inject_Z 1) with 1. lra. }
  rewrite (float_floordiv_nonneg (float_rem t (inject_Z 3600)) 60 Hr0);
    [| | lia].
  - now rewrite Fr, (int_of_nonneg _ Hs0), Fs.
  - apply Qlt_trans with (inject_Z 3600); [exact Hr1 |].
    rewrite <- Zlt_Qlt. lia.
Qed.

End Duration.

(** X16: for a duration from 0 up to 9 * 10^15 microseconds (285 years)
    the three numbers of the duration line split its whole seconds: hours *
    3600 + minutes * 60 + seconds is the duration in seconds rounded down,
    minutes and seconds stay within 0..59, and the hours are not capped. *)
Theorem duration_parts_split (microseconds : Z) :
  0 <= microseconds < 9000000000000000 ->
  let '(hours, minutes, seconds) := duration_parts microseconds in
  hours * 3600 + minutes * 60 + seconds = microseconds / 1000000
  /\ 0 <= hours
  /\ 0 <= minutes < 60
  /\ 0 <= seconds < 60.
Proof.
  intros Hu. rewrite duration_parts_div by exact Hu.
  assert (Hq : 0 <= microseconds / 1000000) by (apply Z.div_pos; lia).
  set (q := microseconds / 1000000) in *.
  repeat split; Z.div_mod_to_equations; lia.
Qed.

Lemma duration_parts_split_witness :
  duration_parts 360000000000 = (100, 0, 0)
  /\ let '(hours, minutes, seconds) := duration_parts 3725500000 in
     hours * 3600 + minutes * 60 + seconds = 3725500000 / 1000000
     /\ 0 <= hours
     /\ 0 <= minutes < 60
     /\ 0 <= seconds < 60.
Proof.
  split; [vm_compute; reflexivity |].
  apply (duration_parts_split 3725500000). lia.
Defined.

(** ** Negative speeds *)

(** X17: a negative speed, the sample of a counter that went down, is
    always printed in KB/s with its sign, however large it is. *)
Theorem negative_speed_in_kb (speed : Q) :
  (speed < 0)%Q ->
  exists digits : string,
    format_speed speed = ("-" ++ digits ++ " KB/s")%string.
Proof.
  intros Hneg. unfold format_speed.
  assert (H1 : Qle_bool (inject_Z (1024 * 1024)) speed = false).
  { destruct (Qle_bool (inject_Z (1024 * 1024)) speed) eqn:E; [| reflexivity].
    apply Qle_bool_iff in E. change (inject_Z (1024 * 1024)) with 1048576%Q in E.
    lra. }
  assert (H2 : Qle_bool 1024 speed = false).
  { destruct (Qle_bool 1024 speed) eqn:E; [| reflexivity].
    apply Qle_bool_iff in E. lra. }
  assert (Hc : Qcompare speed 0 = Lt) by now apply Qlt_alt.
  rewrite H1, H2. unfold fmt_2f, Qneg_bool. rewrite Hc.
  eexists. cbn [String.append]. reflexivity.
Qed.

Lemma negative_speed_in_kb_witness :
  exists digits : string,
    format_speed (calculate_speed 0 (5 * 1024 * 1024 * 1024))
    = ("-" ++ digits ++ " KB/s")%string.
Proof.
  apply (negative_speed_in_kb (calculate_speed 0 (5 * 1024 * 1024 * 1024))).
  reflexivity.
Defined.

(** ** Snapshots with nothing in common *)

(** X18: a call whose current snapshot has no interface of the previous one
    (an empty snapshot on either side, or all names changed) leaves the
    state exactly as it was. *)
Theorem disjoint_snapshots_change_nothing (now : string -> Z)
    (stats previous_stats : snapshot) (history_size : Z) (data : interfaces) :
  (forall k, In k (keys stats) -> lookup k previous_stats = None) ->
  update_data now stats previous_stats history_size data = data.
Proof.
  unfold update_data. revert data.
  induction stats as [| [k cur] stats IH]; intros data H; [reflexivity |].
  cbn [fold_left]. unfold update_interface at 2.
  rewrite (H k) by now left.
  apply IH. intros k' Hk'. apply H. now right.
Qed.

Lemma disjoint_snapshots_change_nothing_witness :
  let data := run [tick 60 (eth0 0 0) (eth0 1024 2048)] in
  update_data clock0 (eth0 4096 4096) [] 60 data = data.
Proof.
  intros data.
  apply (disjoint_snapshots_change_nothing clock0 (eth0 4096 4096) [] 60 data).
  reflexivity.
Defined.

(** ** The points of the chart *)

Lemma interface_plots_from_entries (P : series -> Prop) (items : interfaces)
    (color_idx : Z) :
  Forall P (values items) ->
  Forall (fun p => exists d,
            P d /\ plot_x p = timestamps d
            /\ (plot_y p = bytes_sent d \/ plot_y p = bytes_recv d))
         (interface_plots color_idx items).
Proof.
  revert color_idx. induction items as [| [i d] items IH]; intros color_idx H.
  - constructor.
  - cbn [values map snd] in H. inversion H as [| ? ? Hd Hrest]; subst.
    cbn [interface_plots]. destruct (truthy (timestamps d)).
    + constructor; [exists d; auto |].
      constructor; [exists d; auto |]. now apply IH.
    + now apply IH.
Qed.

Lemma range_below (n : nat) : Forall (fun x => (x < n)%nat) (range n).
Proof.
  apply Forall_forall. intros x Hx. unfold range in Hx.
  apply in_seq in Hx. lia.
Qed.

(** X19: over a run with one history size, every line handed to the
    charting library has as many x values as y values, and its x values are
    0, 1, ... below the history size, inside the x axis of the chart. *)
Theorem plotted_points_inside_axis (history_size : Z) (calls : list call) :
  (forall c, In c calls -> call_history c = history_size) ->
  Forall (fun p =>
            List.length (plot_x p) = List.length (plot_y p)
            /\ plot_x p = range (List.length (plot_x p))
            /\ Forall (fun x => 0 <= Z.of_nat x < history_size) (plot_x p))
         (interface_plots 0 (run calls)).
Proof.
  intros Hfixed.
  pose (P := fun d : series =>
               lockstep d
               /\ bounded (Z.max 0 history_size) d
               /\ timestamps d = range (List.length (timestamps d))).
  assert (HP : Forall P (values (run calls))).
  { apply run_values.
    - intros c t cur p Hin. rewrite (Hfixed c Hin). repeat split.
      + apply record_sample_lockstep, new_series_lockstep.
      + apply record_sample_lockstep, new_series_lockstep.
      + apply record_sample_bounded. unfold bounded. simpl. lia.
      + now apply record_sample_renumbered.
    - intros c cur p d Hin (Hl & Hb & Ht). rewrite (Hfixed c Hin).
      split; [now apply record_sample_lockstep |].
      split; [now apply record_sample_bounded |].
      now apply record_sample_renumbered. }
  eapply Forall_impl; [| apply (interface_plots_from_entries P _ 0 HP)].
  intros p (d & ((Hs & Hr) & Hb & Ht) & Hx & Hy). cbn beta.
  rewrite Hx. split; [| split].
  - destruct Hy as [-> | ->]; congruence.
  - exact Ht.
  - rewrite Ht. eapply Forall_impl; [| apply range_below].
    intros x Hlt. cbn beta in Hlt. unfold bounded in Hb. lia.
Qed.

Lemma plotted_points_inside_axis_witness :
  Forall (fun p =>
            List.length (plot_x p) = List.length (plot_y p)
            /\ plot_x p = range (List.length (plot_x p))
            /\ Forall (fun x => 0 <= Z.of_nat x < 2) (plot_x p))
         (interface_plots 0
            (run [tick 2 (eth0 0 0) (eth0 1024 2048);
                  tick 2 (eth0 1024 2048) (eth0 3072 2048);
                  tick 2 (eth0 3072 2048) (eth0 4096 4096)])).
Proof.
  apply (plotted_points_inside_axis 2
           [tick 2 (eth0 0 0) (eth0 1024 2048);
            tick 2 (eth0 1024 2048) (eth0 3072 2048);
            tick 2 (eth0 3072 2048) (eth0 4096 4096)]).
  intros c Hin. simpl in Hin.
  destruct Hin as [<- | [<- | [<- | []]]]; reflexivity.
Defined.
